(** * url-shortener: rate limiting, short-code allocation and redirect handling

    A shallow embedding of the request path of the URL shortener
    (packages [middleware], [models], [repository], [services], [api])
    together with the properties of its per-IP rate limiter, its short-code
    allocator and its redirect handler. *)

From Stdlib Require Import ZArith String Ascii List Bool Lia.
From stdpp Require Import base option list gmap strings.

Local Open Scope Z_scope.

(** ** Go base types *)

Module Go.

(** Go's [int] on a 64-bit platform: a two's complement integer of 64
    bits.  Arithmetic that can leave the range wraps around. *)
Definition int_min : Z := - 2 ^ 63.
Definition int_max : Z := 2 ^ 63 - 1.
Definition is_int (z : Z) : Prop := int_min <= z <= int_max.
Definition int_wrap (z : Z) : Z := (z + 2 ^ 63) mod 2 ^ 64 - 2 ^ 63.

(** [time.Time] and [time.Duration].  An instant is a number of
    nanoseconds on one time line, a duration a signed number of
    nanoseconds; [After] and [Add] are the methods of [time.Time]. *)
Definition Time : Type := Z.
Definition Duration : Type := Z.
Definition Minute : Duration := 60 * 1000000000.
Definition After (t u : Time) : bool := u <? t.
Definition Add (t : Time) (d : Duration) : Time := t + d.

End Go.

(** ** A state monad for code that runs under a lock on shared state *)

Definition State (S A : Type) : Type := S -> A * S.

#[global] Instance State_ret {S} : MRet (State S) := fun A a s => (a, s).
#[global] Instance State_bind {S} : MBind (State S) :=
  fun A B f m s => let '(a, s') := m s in f a s'.

Definition get {S} : State S S := fun s => (s, s).
Definition modify {S} (f : S -> S) : State S unit := fun s => (tt, f s).

(** ** HTTP messages *)

Module Http.
Import Go.

Definition StatusFound : Z := 302.
Definition StatusNotFound : Z := 404.
Definition StatusGone : Z := 410.
Definition StatusTooManyRequests : Z := 429.
Definition StatusInternalServerError : Z := 500.

(** The part of a request the handlers read: [c.Param("shortCode")],
    [c.Request.UserAgent()] and [c.ClientIP()]. *)
Record Request : Type := mkRequest {
  param_shortCode : string;
  header_UserAgent : string;
  ClientIP : string
}.

(** A value put in a header or a JSON body: a string, a number printed
    with [%d], an instant printed with [Format(time.RFC3339)], and the
    whole seconds [int(d.Seconds())] or minutes [int(d.Minutes())] of a
    duration. *)
Inductive Value : Type :=
| VString (s : string)
| VInt (n : Z)
| VTime (t : Time)
| VSeconds (d : Duration)
| VMinutes (d : Duration).

(** What is written to the client: [c.JSON(status, gin.H{...})],
    [c.Redirect(status, location)], or nothing because the handler
    panicked. *)
Inductive Payload : Type :=
| JSON (fields : list (string * Value))
| Redirect (location : string)
| Crashed (msg : string).

Record Response : Type := mkResponse {
  status : Z;
  headers : list (string * Value);
  payload : Payload
}.

(** [c.Header(key, value)] before the payload is written. *)
Definition with_headers (hs : list (string * Value)) (r : Response) : Response :=
  {| status := status r; headers := hs ++ headers r; payload := payload r |}.

End Http.

(** ** Package middleware: the per-IP rate limiter *)

Module Middleware.
Import Go Http.

(** [IPLimitInfo]: the counters kept for one IP address. *)
Record IPLimitInfo : Type := mkInfo {
  count : Z;            (* requests made in the current window *)
  resetTime : Time;     (* instant at which the counter is reset *)
  lastAccess : Time     (* last request of this IP *)
}.

(** [IPRateLimiter]: the map of IPs, the quota and the window.  The
    mutex is the reason every operation below is one atomic step on
    this record. *)
Record IPRateLimiter : Type := mkLimiter {
  ips : gmap string IPLimitInfo;
  maxRequest : Z;
  window : Duration
}.

(** [NewIPRateLimiter]: an empty map; the window is
    [time.Duration(windowMinutes) * time.Minute], an int64 product. *)
Definition NewIPRateLimiter (maxRequest windowMinutes : Z) : IPRateLimiter :=
  {| ips := ∅;
     maxRequest := maxRequest;
     window := int_wrap (windowMinutes * Minute) |}.

(** Writes through the pointer [rl.ips[ip]]. *)
Definition store (ip : string) (info : IPLimitInfo) : State IPRateLimiter unit :=
  modify (fun rl => {| ips := <[ip := info]> (ips rl);
                       maxRequest := maxRequest rl;
                       window := window rl |}).

Definition with_lastAccess (t : Time) (info : IPLimitInfo) : IPLimitInfo :=
  {| count := count info; resetTime := resetTime info; lastAccess := t |}.
Definition with_count (c : Z) (info : IPLimitInfo) : IPLimitInfo :=
  {| count := c; resetTime := resetTime info; lastAccess := lastAccess info |}.
Definition with_resetTime (t : Time) (info : IPLimitInfo) : IPLimitInfo :=
  {| count := count info; resetTime := t; lastAccess := lastAccess info |}.

(** [isAllowed]: [now] is the reading of [time.Now()] taken under the
    lock.  The line logged on a rejection is not part of the limiter and
    is left out. *)
Definition isAllowed (ip : string) (now : Time) : State IPRateLimiter bool :=
  rl ← get;
  match ips rl !! ip with
  | None =>
      (* first request of this IP *)
      store ip {| count := 1;
                  resetTime := Add now (window rl);
                  lastAccess := now |};;
      mret true
  | Some info =>
      let info := with_lastAccess now info in
      store ip info;;
      if After now (resetTime info) then
        store ip (with_resetTime (Add now (window rl)) (with_count 1 info));;
        mret true
      else if count info >=? maxRequest rl then
        mret false
      else
        store ip (with_count (int_wrap (count info + 1)) info);;
        mret true
  end.

(** [getRemainingRequests]. *)
Definition getRemainingRequests (ip : string) (now : Time) : State IPRateLimiter Z :=
  rl ← get;
  match ips rl !! ip with
  | None => mret (maxRequest rl)
  | Some info =>
      if After now (resetTime info) then mret (maxRequest rl)
      else
        let remaining := int_wrap (maxRequest rl - count info) in
        if remaining <? 0 then mret 0 else mret remaining
  end.

(** [getResetTime]. *)
Definition getResetTime (ip : string) (now : Time) : State IPRateLimiter Time :=
  rl ← get;
  match ips rl !! ip with
  | None => mret (Add now (window rl))
  | Some info =>
      if After now (resetTime info) then mret (Add now (window rl))
      else mret (resetTime info)
  end.

(** The middleware acts on the limiter and hands over to the rest of the
    chain, which acts on a state [W] of its own. *)
Definition on_limiter {W A : Type} (m : State IPRateLimiter A)
    : State (IPRateLimiter * W) A :=
  fun s => let '(a, rl) := m s.1 in (a, (rl, s.2)).

Definition on_chain {W A : Type} (m : State W A) : State (IPRateLimiter * W) A :=
  fun s => let '(a, w) := m s.2 in (a, (s.1, w)).

(** [RateLimitMiddleware]: [next] is the rest of the handler chain, which
    [c.Next()] runs and [c.Abort()] skips; [t1], [t2], [t3] are the three
    clock readings of one pass, in the order they are taken. *)
Definition RateLimitMiddleware {W : Type} (ip : string) (t1 t2 t3 : Time)
    (next : State W Response) : State (IPRateLimiter * W) Response :=
  allowed ← on_limiter (isAllowed ip t1);
  limiter ← on_limiter get;
  if negb allowed then
    resetTime ← on_limiter (getResetTime ip t2);
    let secondsUntilReset := VSeconds (resetTime - t3) in
    mret {| status := StatusTooManyRequests;
            headers := [("X-RateLimit-Limit"%string, VInt (maxRequest limiter));
                        ("X-RateLimit-Remaining"%string, VString "0");
                        ("X-RateLimit-Reset"%string, VTime resetTime);
                        ("Retry-After"%string, secondsUntilReset)];
            payload := JSON [("error"%string,
                                VString "Trop de requêtes. Veuillez réessayer plus tard.");
                             ("retry_after"%string, secondsUntilReset);
                             ("reset_at"%string, VTime resetTime);
                             ("max_requests"%string, VInt (maxRequest limiter));
                             ("window_minutes"%string, VMinutes (window limiter))] |}
  else
    remaining ← on_limiter (getRemainingRequests ip t2);
    resetTime ← on_limiter (getResetTime ip t3);
    response ← on_chain next;
    mret (with_headers [("X-RateLimit-Limit"%string, VInt (maxRequest limiter));
                        ("X-RateLimit-Remaining"%string, VInt remaining);
                        ("X-RateLimit-Reset"%string, VTime resetTime)]
            response).

(** A run of requests, each an IP and the instant at which [isAllowed]
    reads the clock; the lock serialises them in this order. *)
Fixpoint serve (calls : list (string * Time)) : State IPRateLimiter (list bool) :=
  match calls with
  | [] => mret []
  | (ip, now) :: rest =>
      b ← isAllowed ip now;
      bs ← serve rest;
      mret (b :: bs)
  end.

(** Number of requests of [ip] among the first [i] of [calls]. *)
Definition earlier (ip : string) (calls : list (string * Time)) (i : nat) : nat :=
  length (filter (fun c => c.1 = ip) (take i calls)).

(** The quota of one window, for the run [calls] started on [rl]: a
    request of [ip] that fewer than [maxRequest] requests of [ip] precede
    is allowed, and the one that exactly [maxRequest] precede is
    rejected. *)
Definition window_quota (rl : IPRateLimiter) (ip : string)
    (calls : list (string * Time)) : Prop :=
  forall (i : nat) (t : Time),
    calls !! i = Some (ip, t) ->
    let n := Z.of_nat (earlier ip calls i) in
    (n < maxRequest rl -> (serve calls rl).1 !! i = Some true) /\
    (n = maxRequest rl -> (serve calls rl).1 !! i = Some false).

(** A request of [ip] at [t0] opens a window: the IP is unknown, or its
    previous window is over. *)
Definition opens_window (rl : IPRateLimiter) (ip : string) (t0 : Time) : Prop :=
  match ips rl !! ip with
  | None => True
  | Some info => After t0 (resetTime info) = true
  end.

(** Every request of [ip] in [rest] falls in the window ending at [reset]. *)
Definition in_window (ip : string) (reset : Time)
    (rest : list (string * Time)) : Prop :=
  Forall (fun c => c.1 = ip -> After c.2 reset = false) rest.

(** A rejected request leaves the stored counter as it was. *)
Definition rejected_keeps_count (rl : IPRateLimiter) (ip : string) (now : Time) : Prop :=
  (isAllowed ip now rl).1 = false ->
  exists info info',
    ips rl !! ip = Some info /\
    ips (isAllowed ip now rl).2 !! ip = Some info' /\
    count info' = count info.

(** The window rolls over at instant [now]: the request is allowed, the
    counter restarts at 1 and the window ends at [now + window]. *)
Definition rolls_over (rl : IPRateLimiter) (ip : string) (now : Time) : Prop :=
  (isAllowed ip now rl).1 = true /\
  exists info',
    ips (isAllowed ip now rl).2 !! ip = Some info' /\
    count info' = 1 /\
    resetTime info' = Add now (window rl).

(** Sample limiters: a quota of zero, and a quota of one already used up
    by a request made at instant 0. *)
Definition client : string := "203.0.113.7".
Definition zero_quota : IPRateLimiter := NewIPRateLimiter 0 1.
Definition spent_quota : IPRateLimiter :=
  (isAllowed client 0 (NewIPRateLimiter 1 1)).2.

End Middleware.

(** ** Go errors *)

Module Errors.

(** An [error] value: the sentinel [gorm.ErrRecordNotFound], an error
    made by a library outside this repository (database driver, entropy
    source), [errors.New(msg)], and [fmt.Errorf(msg + ": %w", cause)]. *)
Inductive error : Type :=
| ErrRecordNotFound
| ErrForeign (msg : string)
| ErrNew (msg : string)
| ErrWrap (msg : string) (cause : error).

(** [errors.Is(err, gorm.ErrRecordNotFound)]: follows the chain of wrapped
    causes. *)
Fixpoint IsRecordNotFound (err : error) : bool :=
  match err with
  | ErrRecordNotFound => true
  | ErrWrap _ cause => IsRecordNotFound cause
  | ErrForeign _ | ErrNew _ => false
  end.

(** What a Go call yields: its value, its error, or a run-time panic. *)
Inductive outcome (A : Type) : Type :=
| Ok (a : A)
| Err (e : error)
| Panic (msg : string).
Arguments Ok {A} a.
Arguments Err {A} e.
Arguments Panic {A} msg.

End Errors.

(** ** Package models *)

Module Models.
Import Go.

(** Modelled from the spec: the field [IsCustom], which
    [CreateLinkWithCustomAlias] sets, belongs to a variant of the struct
    [Link] that is not among the sources (section 3: "isCustom: boolean,
    true when the code was a user-supplied alias").  The other fields are
    those of [Link] in the package, with its optional expiry. *)
Record Link : Type := mkLink {
  ID : N;
  ShortCode : string;
  LongURL : string;
  CreatedAt : Time;
  IsActive : bool;
  ExpiresAt : option Time;
  IsCustom : bool
}.

(** [IsExpired]: [now] is the reading of [time.Now()]. *)
Definition IsExpired (l : Link) (now : Time) : bool :=
  match ExpiresAt l with
  | None => false
  | Some expiresAt => After now expiresAt
  end.

(** Modelled from the spec: the declaration of [ClickEvent] is not among
    the sources; its fields are the four that section 3 lists and that
    [RedirectHandler] fills in. *)
Record ClickEvent : Type := mkClickEvent {
  LinkID : N;
  Timestamp : Time;
  UserAgent : string;
  IPAddress : string
}.

End Models.

(** ** Package repository *)

Module Repository.
Import Go Errors Models.

(** The interface [LinkRepository], for the two methods the allocator
    and the redirect use.  [CreateLink] takes a pointer: the link comes
    back as the store left it. *)
Class LinkRepository (R : Type) : Type := {
  CreateLink : Link -> State R (Link * option error);
  GetLinkByShortCode : string -> State R (Link + error)
}.

(** The database behind [GormLinkRepository]: the rows of table [links]
    (unique index on [short_code]), the auto-increment counter of the
    primary key, the clock GORM reads for [autoCreateTime], and the state
    of the connection ([Some msg]: every statement fails with [msg]). *)
Record DB : Type := mkDB {
  links : list Link;
  next_id : N;
  db_now : Time;
  fault : option string
}.

Definition short_codes (db : DB) : list string := map ShortCode (links db).

(** [db.Where("short_code = ?", shortCode).First(&link)]. *)
Definition First_by_short_code (shortCode : string) (db : DB) : Link + error :=
  match fault db with
  | Some msg => inr (ErrForeign msg)
  | None =>
      match find (fun l => String.eqb (ShortCode l) shortCode) (links db) with
      | Some l => inl l
      | None => inr ErrRecordNotFound
      end
  end.

Definition unique_violation : error :=
  ErrForeign "UNIQUE constraint failed: links.short_code".

(** [db.Create(link)] for a link whose [ID] and [CreatedAt] are zero, as
    the services build it: the unique index rejects a second row with the
    same code; otherwise the row gets its ID, creation time and default
    [IsActive], and is appended.  (An ID or a creation time set by the
    caller would be kept by GORM; no caller in the sources sets one.  On a
    failed insert GORM has written the creation time into the struct
    already; the services drop the struct then, and here it comes back as
    it went in.) *)
Definition Create (link : Link) (db : DB) : (Link * option error) * DB :=
  match fault db with
  | Some msg => ((link, Some (ErrForeign msg)), db)
  | None =>
      if existsb (fun l => String.eqb (ShortCode l) (ShortCode link)) (links db)
      then ((link, Some unique_violation), db)
      else
        let row := {| ID := next_id db;
                      ShortCode := ShortCode link;
                      LongURL := LongURL link;
                      CreatedAt := db_now db;
                      IsActive := true;
                      ExpiresAt := ExpiresAt link;
                      IsCustom := IsCustom link |} in
        ((row, None),
         {| links := links db ++ [row];
            next_id := N.succ (next_id db);
            db_now := db_now db;
            fault := fault db |})
  end.

(** [GormLinkRepository]. *)
#[global] Instance GormLinkRepository : LinkRepository DB := {
  CreateLink link := fun db => Create link db;
  GetLinkByShortCode shortCode := fun db => (First_by_short_code shortCode db, db)
}.

End Repository.

(** ** The process around the services: entropy, repository, channel, log *)

Module Process.
Import Go Errors Models.

(** A line written with [log.Printf]. *)
Inductive LogEntry : Type :=
| LogCollision (code : string) (attempt maxRetries : Z)
| LogAliasCreated (alias : string)
| LogRetrieveError (shortCode : string) (err : error)
| LogExpired (shortCode : string) (expiresAt : option Time)
| LogChannelFull (shortCode : string).

(** A buffered channel of click events: [make(chan models.ClickEvent, cap)]. *)
Record Chan : Type := mkChan {
  buf : list ClickEvent;
  cap : nat
}.

(** What one call of [rand.Int(rand.Reader, max)] returns. *)
Definition RandInt : Type := (Z + error)%type.

(** The state the request handlers share.  [entropy k] is what the
    [k]-th call of [rand.Int] returns and [drawn] counts the calls made;
    [ClickEventsChannel] is the package variable of [api] ([None]: nil). *)
Record World (R : Type) : Type := mkWorld {
  entropy : nat -> RandInt;
  drawn : nat;
  repo : R;
  ClickEventsChannel : option Chan;
  logs : list LogEntry
}.
Arguments mkWorld {R}.
Arguments entropy {R}.
Arguments drawn {R}.
Arguments repo {R}.
Arguments ClickEventsChannel {R}.
Arguments logs {R}.

Section Effects.
Context {R : Type}.

Definition rand_Int : State (World R) RandInt :=
  fun w => (entropy w (drawn w),
            mkWorld (entropy w) (S (drawn w)) (repo w) (ClickEventsChannel w) (logs w)).

Definition on_repo {A : Type} (m : State R A) : State (World R) A :=
  fun w => let '(a, r) := m (repo w) in
           (a, mkWorld (entropy w) (drawn w) r (ClickEventsChannel w) (logs w)).

Definition log_Printf (line : LogEntry) : State (World R) unit :=
  modify (fun w => mkWorld (entropy w) (drawn w) (repo w) (ClickEventsChannel w)
                     (logs w ++ [line])).

Definition skip : State (World R) unit := mret tt.

Definition set_channel (ch : option Chan) : State (World R) unit :=
  modify (fun w => mkWorld (entropy w) (drawn w) (repo w) ch (logs w)).

End Effects.

End Process.

(** ** Package services *)

Module Services.
Import Go Errors Models Process.

Definition charset : string :=
  "abcdefghijklmnopqrstuvwxyzABCDEFGHIJKLMNOPQRSTUVWXYZ0123456789".

(** [charset[i]]; [None] is the index-out-of-range panic. *)
Definition charset_at (i : Z) : option ascii :=
  if i <? 0 then None else String.get (Z.to_nat i) charset.

Definition maxRetries : Z := 5.

Definition exhausted : error :=
  ErrNew "failed to generate unique short code after multiple retries".

(** [&models.Link{ShortCode: ..., LongURL: ..., IsCustom: ...}]: the other
    fields hold their zero values. *)
Definition newLink (shortCode longURL : string) (isCustom : bool) : Link :=
  {| ID := 0%N; ShortCode := shortCode; LongURL := longURL; CreatedAt := 0;
     IsActive := false; ExpiresAt := None; IsCustom := isCustom |}.

(** [len(s)] of a string: its number of bytes. *)
Definition len (s : string) : Z := Z.of_nat (String.length s).

(** A byte of the class [[a-zA-Z0-9-]]. *)
Definition is_alias_char (c : ascii) : bool :=
  let n := N_of_ascii c in
  ((97 <=? n) && (n <=? 122) || (65 <=? n) && (n <=? 90) ||
   (48 <=? n) && (n <=? 57) || (n =? 45))%N.

(** [validAliasPattern.MatchString] for the pattern [^[a-zA-Z0-9-]+$]: one
    byte or more, each of the class (a byte outside ASCII is never in the
    class, and [$] matches at the end of the text only). *)
Definition validAliasPattern_MatchString (s : string) : bool :=
  match s with
  | EmptyString => false
  | String _ _ => forallb is_alias_char (list_ascii_of_string s)
  end.

Definition reservedWords : list string :=
  ["api"; "health"; "stats"; "admin"; "create"; "delete"]%string.

(** The errors of the five rules on a custom alias. *)
Definition alias_empty : error :=
  ErrNew "l'alias personnalisé ne peut pas être vide".
Definition alias_length : error :=
  ErrNew "l'alias personnalisé doit contenir entre 3 et 20 caractères".
Definition alias_charset : error :=
  ErrNew "l'alias personnalisé ne peut contenir que des lettres, chiffres et tirets".
Definition alias_reserved (customAlias : string) : error :=
  ErrNew ("l'alias '" ++ customAlias ++ "' est un mot réservé et ne peut pas être utilisé").
Definition alias_taken (customAlias : string) : error :=
  ErrNew ("l'alias '" ++ customAlias ++ "' est déjà utilisé, veuillez en choisir un autre").

Section LinkService.
Context {R : Type} `{!Repository.LinkRepository R}.

(** The loop of [GenerateShortCode]: [n] bytes still to fill, [result] the
    bytes filled so far. *)
Fixpoint fill (n : nat) (result : string) : State (World R) (outcome string) :=
  match n with
  | O => mret (Ok result)
  | S n' =>
      randomIndex ← rand_Int;
      match randomIndex with
      | inr err => mret (Err (ErrWrap "error generating random number" err))
      | inl i =>
          match charset_at i with
          | None => mret (Panic "index out of range")
          | Some c => fill n' (result ++ String c EmptyString)
          end
      end
  end.

(** [GenerateShortCode]. *)
Definition GenerateShortCode (length : Z) : State (World R) (outcome string) :=
  if length <? 0 then mret (Panic "makeslice: len out of range")
  else fill (Z.to_nat length) EmptyString.

(** The retry loop of [CreateLink]: [n] iterations left, [i] the loop
    variable.  Yields the value of [shortCode] at the end of the loop,
    which is empty when no iteration found a free code. *)
Fixpoint retry (n : nat) (i : Z) : State (World R) (outcome string) :=
  match n with
  | O => mret (Ok EmptyString)
  | S n' =>
      generated ← GenerateShortCode 6;
      match generated with
      | Err err => mret (Err (ErrWrap "error generating short code" err))
      | Panic msg => mret (Panic msg)
      | Ok code =>
          found ← on_repo (Repository.GetLinkByShortCode code);
          match found with
          | inr err =>
              if IsRecordNotFound err then mret (Ok code)
              else mret (Err (ErrWrap "database error checking short code uniqueness" err))
          | inl _ =>
              log_Printf (LogCollision code (i + 1) maxRetries);;
              retry n' (i + 1)
          end
      end
  end.

(** [CreateLink] up to the check that a code was found. *)
Definition pickShortCode : State (World R) (outcome string) :=
  picked ← retry (Z.to_nat maxRetries) 0;
  match picked with
  | Ok shortCode =>
      if String.eqb shortCode EmptyString then mret (Err exhausted)
      else mret (Ok shortCode)
  | Err err => mret (Err err)
  | Panic msg => mret (Panic msg)
  end.

(** [CreateLink] from the construction of the link on. *)
Definition persistLink (shortCode longURL : string) : State (World R) (outcome Link) :=
  '(link, failure) ← on_repo (Repository.CreateLink (newLink shortCode longURL false));
  match failure with
  | Some err => mret (Err (ErrWrap "error creating link in database" err))
  | None => mret (Ok link)
  end.

(** [CreateLink]. *)
Definition CreateLink (longURL : string) : State (World R) (outcome Link) :=
  picked ← pickShortCode;
  match picked with
  | Ok shortCode => persistLink shortCode longURL
  | Err err => mret (Err err)
  | Panic msg => mret (Panic msg)
  end.

(** [GetLinkByShortCode]. *)
Definition GetLinkByShortCode (shortCode : string) : State (World R) (Link + error) :=
  on_repo (Repository.GetLinkByShortCode shortCode).

(** [CreateLinkWithCustomAlias] up to the existence check: rules 1 to 5
    in the order of the source.  The repository yields either a link or
    an error, so [err == nil && existingLink != nil] is the case of a
    link. *)
Definition checkCustomAlias (customAlias : string) : State (World R) (outcome unit) :=
  if String.eqb customAlias EmptyString then
    mret (Err alias_empty)
  else if (len customAlias <? 3) || (20 <? len customAlias) then
    mret (Err alias_length)
  else if negb (validAliasPattern_MatchString customAlias) then
    mret (Err alias_charset)
  else if existsb (String.eqb customAlias) reservedWords then
    mret (Err (alias_reserved customAlias))
  else
    existing ← on_repo (Repository.GetLinkByShortCode customAlias);
    match existing with
    | inl _ => mret (Err (alias_taken customAlias))
    | inr err =>
        if IsRecordNotFound err then mret (Ok tt)
        else mret (Err (ErrWrap "erreur lors de la vérification de l'alias" err))
    end.

(** [CreateLinkWithCustomAlias] from the construction of the link on. *)
Definition persistCustomAlias (longURL customAlias : string) : State (World R) (outcome Link) :=
  '(link, failure) ← on_repo (Repository.CreateLink (newLink customAlias longURL true));
  match failure with
  | Some err =>
      mret (Err (ErrWrap "erreur lors de la création du lien avec alias personnalisé" err))
  | None =>
      log_Printf (LogAliasCreated customAlias);;
      mret (Ok link)
  end.

(** [CreateLinkWithCustomAlias]. *)
Definition CreateLinkWithCustomAlias (longURL customAlias : string)
    : State (World R) (outcome Link) :=
  checked ← checkCustomAlias customAlias;
  match checked with
  | Ok _ => persistCustomAlias longURL customAlias
  | Err err => mret (Err err)
  | Panic msg => mret (Panic msg)
  end.

(** A request whose existence check and insert are separated by the
    repository calls of other requests: [before] is the part up to the
    check, [others] what the other requests do in between, [after] the
    part from the construction of the link on. *)
Definition interleaved {A B C : Type} (before : State (World R) (outcome A))
    (others : State (World R) B) (after : A -> State (World R) (outcome C))
    : State (World R) (outcome C) :=
  checked ← before;
  match checked with
  | Ok a => others;; after a
  | Err err => mret (Err err)
  | Panic msg => mret (Panic msg)
  end.

End LinkService.

(** *** Vocabulary of the properties of the allocator *)

(** The world after [n] more calls of [rand.Int], and with more lines in
    the log. *)
Definition after_draws {R : Type} (n : nat) (w : World R) : World R :=
  mkWorld (entropy w) (drawn w + n) (repo w) (ClickEventsChannel w) (logs w).

Definition with_logs {R : Type} (lines : list LogEntry) (w : World R) : World R :=
  mkWorld (entropy w) (drawn w) (repo w) (ClickEventsChannel w) (logs w ++ lines).

(** The code spelled by the draws [k], ..., [k + n - 1] of an entropy
    source, when each of them is an index into the charset. *)
Fixpoint code_from (ent : nat -> RandInt) (k n : nat) : option string :=
  match n with
  | O => Some EmptyString
  | S n' =>
      match ent k with
      | inl i =>
          match charset_at i, code_from ent (S k) n' with
          | Some c, Some rest => Some (String c rest)
          | _, _ => None
          end
      | inr _ => None
      end
  end.

(** The candidate of attempt number [k] (from 0) of a random allocation
    started in [w]. *)
Definition candidate {R : Type} (w : World R) (k : nat) : option string :=
  code_from (entropy w) (drawn w + 6 * k) 6.

(** The lines the retry loop logs for the collisions on [codes]. *)
Definition collision_lines (codes : list string) : list LogEntry :=
  imap (fun k code => LogCollision code (Z.of_nat k + 1) maxRetries) codes.

(** The rules on a custom alias, in the words and the order of the
    specification (section 4.2), to be compared with
    [CreateLinkWithCustomAlias]. *)
Inductive AliasRule : Type :=
| NonEmpty
| LengthWithin3And20
| LettersDigitsHyphen
| NotReserved
| NotInUse.

Definition is_letter_digit_hyphen (c : ascii) : bool :=
  existsb (Ascii.eqb c)
    (list_ascii_of_string
       "abcdefghijklmnopqrstuvwxyzABCDEFGHIJKLMNOPQRSTUVWXYZ0123456789-").

Definition rule_holds (db : Repository.DB) (alias : string) (rule : AliasRule) : bool :=
  match rule with
  | NonEmpty => negb (String.eqb alias EmptyString)
  | LengthWithin3And20 => (3 <=? String.length alias)%nat && (String.length alias <=? 20)%nat
  | LettersDigitsHyphen => forallb is_letter_digit_hyphen (list_ascii_of_string alias)
  | NotReserved => negb (existsb (String.eqb alias) reservedWords)
  | NotInUse => negb (existsb (String.eqb alias) (Repository.short_codes db))
  end.

Definition first_violation (db : Repository.DB) (alias : string) : option AliasRule :=
  find (fun rule => negb (rule_holds db alias rule))
    [NonEmpty; LengthWithin3And20; LettersDigitsHyphen; NotReserved; NotInUse].

(** The error that names a rule. *)
Definition rule_error (alias : string) (rule : AliasRule) : error :=
  match rule with
  | NonEmpty => alias_empty
  | LengthWithin3And20 => alias_length
  | LettersDigitsHyphen => alias_charset
  | NotReserved => alias_reserved alias
  | NotInUse => alias_taken alias
  end.

(** Sample worlds: an entropy source that always returns index 0 (every
    candidate is [aaaaaa]), over an empty database and over one that holds
    that code. *)
Definition zeros : nat -> RandInt := fun _ => inl 0.

Definition empty_db : Repository.DB :=
  {| Repository.links := []; Repository.next_id := 1%N;
     Repository.db_now := 1000; Repository.fault := None |}.

Definition fresh_world : World Repository.DB := mkWorld zeros 0 empty_db None [].

Definition crowded_world : World Repository.DB :=
  (CreateLink "https://example.com" fresh_world).2.

(** Sample races on [fresh_world]: between the existence check and the
    insert of a request, a rival request stores a link under the same
    code. *)
Definition rival (code : string) : State (World Repository.DB) (outcome Link) :=
  CreateLinkWithCustomAlias "https://rival.example" code.

Definition racing_custom : outcome Link * World Repository.DB :=
  interleaved (checkCustomAlias "promo") (rival "promo")
    (fun _ => persistCustomAlias "https://example.com" "promo") fresh_world.

Definition racing_random : outcome Link * World Repository.DB :=
  interleaved pickShortCode (rival "aaaaaa")
    (fun code => persistLink code "https://example.com") fresh_world.

(** A sample of a code of the table that is a reserved word: the entropy
    source returns the indices 7, 4, 0, 11, 19, 7 of the charset in turn,
    which spell [health], and [CreateLink] stores a link under that
    code. *)
Definition spells_health : nat -> RandInt :=
  fun k => inl (nth (k mod 6) [7; 4; 0; 11; 19; 7] 0).

Definition health_world : World Repository.DB :=
  (CreateLink "https://example.com" (mkWorld spells_health 0 empty_db None [])).2.

End Services.

(** ** Package api *)

Module Api.
Import Go Errors Models Process Http.

Section Handlers.
Context {R : Type} `{!Repository.LinkRepository R}.

(** [SetupRoutes], as far as the channel goes: it is made, with room for
    1000 events, unless it exists. *)
Definition SetupRoutes : State (World R) unit :=
  w ← get;
  match ClickEventsChannel w with
  | None => set_channel (Some {| buf := []; cap := 1000 |})
  | Some _ => mret tt
  end.

(** The [select] of [RedirectHandler]: a send that is taken when the
    buffer has room, and the [default] branch otherwise (a nil channel is
    never ready).  No branch waits. *)
Definition trySend (clickEvent : ClickEvent) : State (World R) bool :=
  w ← get;
  match ClickEventsChannel w with
  | None => mret false
  | Some ch =>
      if (length (buf ch) <? cap ch)%nat then
        set_channel (Some {| buf := buf ch ++ [clickEvent]; cap := cap ch |});;
        mret true
      else mret false
  end.

(** [RedirectHandler]: [now_expiry] is the clock reading of [IsExpired],
    [now_click] the one stored in the click event. *)
Definition RedirectHandler (req : Request) (now_expiry now_click : Time)
    : State (World R) Response :=
  let shortCode := param_shortCode req in
  found ← Services.GetLinkByShortCode shortCode;
  match found with
  | inr err =>
      if IsRecordNotFound err then
        mret (mkResponse StatusNotFound []
                (JSON [("error"%string, VString "Short code not found")]))
      else
        log_Printf (LogRetrieveError shortCode err);;
        mret (mkResponse StatusInternalServerError []
                (JSON [("error"%string, VString "Internal server error")]))
  | inl link =>
      if IsExpired link now_expiry then
        log_Printf (LogExpired shortCode (ExpiresAt link));;
        match ExpiresAt link with
        | Some expiresAt =>
            mret (mkResponse StatusGone []
                    (JSON [("error"%string, VString "This link has expired");
                           ("expired_at"%string, VTime expiresAt)]))
        | None => mret (mkResponse StatusInternalServerError []
                          (Crashed "nil pointer dereference"))
        end
      else
        let clickEvent := {| LinkID := ID link;
                             Timestamp := now_click;
                             UserAgent := header_UserAgent req;
                             IPAddress := ClientIP req |} in
        sent ← trySend clickEvent;
        (if (sent : bool) then skip else log_Printf (LogChannelFull shortCode));;
        mret (mkResponse StatusFound [] (Redirect (LongURL link)))
  end.

(** Modelled from the spec: the start-up code that puts the rate limiter
    in front of the routes is not among the sources.  Section 4.5 orders
    the redirect as "rate-limit check, code lookup, expiry check,
    telemetry emit, redirect response", and the configuration has the
    switch [rate_limiter.enabled]: with [guarded] the request passes
    through [RateLimitMiddleware] under the client's IP before it reaches
    [RedirectHandler], without it the handler is the whole route. *)
Definition redirect_route (guarded : bool) (req : Request)
    (t1 t2 t3 now_expiry now_click : Time)
    : State (Middleware.IPRateLimiter * World R) Response :=
  if guarded then
    Middleware.RateLimitMiddleware (ClientIP req) t1 t2 t3
      (RedirectHandler req now_expiry now_click)
  else
    Middleware.on_chain (RedirectHandler req now_expiry now_click).

End Handlers.

(** The answer to a request for an expired link. *)
Definition gone (expiresAt : Time) : Response :=
  mkResponse StatusGone []
    (JSON [("error"%string, VString "This link has expired");
           ("expired_at"%string, VTime expiresAt)]).

(** A sample: a link that expired at instant 100, in a database of its
    own, and a request for it by the sample client. *)
Definition expired_link : Link :=
  mkLink 1 "aaaaaa" "https://example.com" 50 true (Some 100) false.

Definition expired_world : World Repository.DB :=
  mkWorld Services.zeros 0
    {| Repository.links := [expired_link]; Repository.next_id := 2%N;
       Repository.db_now := 1000; Repository.fault := None |}
    (Some {| buf := []; cap := 1000 |}) [].

Definition sample_request : Request :=
  mkRequest "aaaaaa" "curl/8.5.0" Middleware.client.

(** A sample for a full channel: the same database with a link that does
    not expire, and a channel of capacity one that holds one event. *)
Definition lasting_link : Link :=
  mkLink 1 "aaaaaa" "https://example.com" 50 true None false.

Definition saturated_world : World Repository.DB :=
  mkWorld Services.zeros 0
    {| Repository.links := [lasting_link]; Repository.next_id := 2%N;
       Repository.db_now := 1000; Repository.fault := None |}
    (Some {| buf := [mkClickEvent 1 900 "curl/8.5.0" Middleware.client]; cap := 1 |}) [].

End Api.

(** ** Package middleware: the sweep of stale entries, and runs of the limiter *)

Module Cleanup.
Import Go Middleware.

(** [t.Sub(u)]: the duration [t - u], held at the least or the greatest
    [Duration] when it does not fit. *)
Definition Sub (t u : Time) : Duration := Z.max int_min (Z.min int_max (t - u)).

(** [cleanupOldEntries]: one turn of its loop, for the tick at which
    [time.Now()] reads [now].  The loop ranges over the map and deletes
    the entries it finds stale; a deletion during the range does not hide
    any other entry from it.  The line it logs after the unlock is left
    out. *)
Definition cleanupOldEntries (now : Time) : State IPRateLimiter unit :=
  modify (fun rl =>
    {| ips := filter (fun entry =>
                (Sub now (lastAccess entry.2) >? int_wrap (window rl * 2)) = false)
                (ips rl);
       maxRequest := maxRequest rl;
       window := window rl |}).

(** What happens to a limiter, in the order the lock grants: a request
    of an IP, or a tick of the sweep. *)
Inductive Step : Type :=
| Request (ip : string) (now : Time)
| Tick (now : Time).

Definition step_time (s : Step) : Time :=
  match s with
  | Request _ now => now
  | Tick now => now
  end.

(** The verdicts of the requests of a run, in order. *)
Fixpoint play (steps : list Step) : State IPRateLimiter (list bool) :=
  match steps with
  | [] => mret []
  | Request ip now :: rest =>
      b ← isAllowed ip now;
      bs ← play rest;
      mret (b :: bs)
  | Tick now :: rest =>
      cleanupOldEntries now;;
      play rest
  end.

(** The requests of a run, without its ticks. *)
Fixpoint requests (steps : list Step) : list (string * Time) :=
  match steps with
  | [] => []
  | Request ip now :: rest => (ip, now) :: requests rest
  | Tick _ :: rest => requests rest
  end.

(** The clock does not run backwards along a run that starts at [t]. *)
Fixpoint chronological (t : Time) (steps : list Step) : Prop :=
  match steps with
  | [] => True
  | s :: rest => t <= step_time s /\ chronological (step_time s) rest
  end.

(** Every counter is at least 1 and at most the quota, or 1 when the
    quota is below 1. *)
Definition counts_bounded (rl : IPRateLimiter) : Prop :=
  forall (ip : string) (info : IPLimitInfo),
    ips rl !! ip = Some info -> 1 <= count info <= Z.max 1 (maxRequest rl).

(** No entry was accessed after [now], and no window outlasts the last
    access by more than the window length. *)
Definition timely (now : Time) (rl : IPRateLimiter) : Prop :=
  forall (ip : string) (info : IPLimitInfo),
    ips rl !! ip = Some info ->
    lastAccess info <= now /\ resetTime info <= Add (lastAccess info) (window rl).

(** Sample run: three requests of the sample client, a tick ten minutes
    later, and one more request. *)
Definition sample_run : list Step :=
  [Request client 0; Request client 1; Request client 2;
   Tick 600000000000; Request client 600000000001].

(** The instant a run that starts at [t] ends at. *)
Fixpoint end_time (t : Time) (steps : list Step) : Time :=
  match steps with
  | [] => t
  | s :: rest => end_time (step_time s) rest
  end.

End Cleanup.

(** ** Vocabulary for the entropy source and the table of links *)

Module Invariants.
Import Go Errors Models Process Services.

(** The contract of [rand.Int(rand.Reader, charsetLen)] for the next [n]
    calls: each returns an index below the length of the charset, and no
    error. *)
Definition in_contract {R : Type} (w : World R) (n : nat) : Prop :=
  forall j : nat, (j < n)%nat ->
    exists i : Z, entropy w (drawn w + j) = inl i /\ 0 <= i < len charset.

(** The table keeps its keys: the short codes are pairwise distinct and
    every ID is below the auto-increment counter. *)
Definition well_keyed (db : Repository.DB) : Prop :=
  NoDup (Repository.short_codes db) /\
  Forall (fun l => (ID l < Repository.next_id db)%N) (Repository.links db).

(** The row [db.Create] stores for a link. *)
Definition stored (link : Link) (db : Repository.DB) : Link :=
  {| ID := Repository.next_id db;
     ShortCode := ShortCode link;
     LongURL := LongURL link;
     CreatedAt := Repository.db_now db;
     IsActive := true;
     ExpiresAt := ExpiresAt link;
     IsCustom := IsCustom link |}.

(** The table with one row more. *)
Definition with_row (row : Link) (db : Repository.DB) : Repository.DB :=
  {| Repository.links := Repository.links db ++ [row];
     Repository.next_id := N.succ (Repository.next_id db);
     Repository.db_now := Repository.db_now db;
     Repository.fault := Repository.fault db |}.

(** Sample worlds: the entropy source fails at its first call; the
    database has lost its connection; the first two candidates are
    [aaaaaa] and [bbbbbb]. *)
Definition dry_world : World Repository.DB :=
  mkWorld (fun _ => inr (ErrForeign "unexpected EOF")) 0 empty_db None [].

Definition offline_world : World Repository.DB :=
  mkWorld zeros 0
    {| Repository.links := []; Repository.next_id := 1%N;
       Repository.db_now := 1000; Repository.fault := Some "database is closed" |}
    None [].

Definition a_then_b : nat -> RandInt := fun k => if (k <? 6)%nat then inl 0 else inl 1.

Definition second_try_world : World Repository.DB :=
  mkWorld a_then_b 0 (repo crowded_world) None [].

End Invariants.

(** ** Runs of sends on the channel of click events *)

Module Telemetry.
Import Go Errors Models Process Api.

Section Sends.
Context {R : Type} `{!Repository.LinkRepository R}.

(** The sends of several redirects, one after the other, with no
    worker receiving in between. *)
Fixpoint sendAll (events : list ClickEvent) : State (World R) (list bool) :=
  match events with
  | [] => mret []
  | clickEvent :: rest =>
      sent ← trySend clickEvent;
      others ← sendAll rest;
      mret (sent :: others)
  end.

End Sends.

(** The room left in a channel. *)
Definition room (ch : Chan) : nat := cap ch - length (buf ch).

(** Sample worlds for the redirect: the lasting link behind a nil
    channel, and behind a channel with room. *)
Definition unset_world : World Repository.DB :=
  mkWorld Services.zeros 0 (repo saturated_world) None [].

Definition roomy_world : World Repository.DB :=
  mkWorld Services.zeros 0 (repo saturated_world)
    (Some {| buf := [mkClickEvent 1 900 "curl/8.5.0" Middleware.client]; cap := 3 |}) [].

End Telemetry.

(** * Properties *)

Section Limiter.
Import Go Middleware.

Lemma int_wrap_id (z : Z) : is_int z -> int_wrap z = z.
Proof.
  unfold is_int, int_wrap, int_min, int_max. intros Hz.
  rewrite Z.mod_small; lia.
Qed.

(** [isAllowed] never touches the quota or the window length. *)
Lemma isAllowed_config (ip : string) (now : Time) (rl : IPRateLimiter) :
  maxRequest (isAllowed ip now rl).2 = maxRequest rl /\
  window (isAllowed ip now rl).2 = window rl.
Proof.
  unfold isAllowed, mbind, State_bind, get, store, modify, mret, State_ret.
  destruct (ips rl !! ip) as [info|]; simpl; [|done].
  destruct (After now (resetTime info)); simpl; [done|].
  destruct (count info >=? maxRequest rl); simpl; done.
Qed.

(** [isAllowed] for one IP leaves the entries of the others alone. *)
Lemma isAllowed_frame (ip ip' : string) (now : Time) (rl : IPRateLimiter) :
  ip' <> ip -> ips (isAllowed ip' now rl).2 !! ip = ips rl !! ip.
Proof.
  intros Hne.
  unfold isAllowed, mbind, State_bind, get, store, modify, mret, State_ret.
  destruct (ips rl !! ip') as [info|]; simpl.
  - destruct (After now (resetTime info)); simpl.
    + by rewrite !lookup_insert_ne.
    + destruct (count info >=? maxRequest rl); simpl;
        by rewrite !lookup_insert_ne.
  - by rewrite lookup_insert_ne.
Qed.

(** The four paths of [isAllowed], as equations. *)
Lemma isAllowed_unknown (ip : string) (now : Time) (rl : IPRateLimiter) :
  ips rl !! ip = None ->
  isAllowed ip now rl =
    (true, {| ips := <[ip := mkInfo 1 (Add now (window rl)) now]> (ips rl);
              maxRequest := maxRequest rl; window := window rl |}).
Proof.
  intros Hnone.
  unfold isAllowed, mbind, State_bind, get, store, modify, mret, State_ret.
  by rewrite Hnone.
Qed.

Lemma isAllowed_expired (ip : string) (now : Time) (rl : IPRateLimiter)
    (info : IPLimitInfo) :
  ips rl !! ip = Some info ->
  After now (resetTime info) = true ->
  isAllowed ip now rl =
    (true, {| ips := <[ip := mkInfo 1 (Add now (window rl)) now]> (ips rl);
              maxRequest := maxRequest rl; window := window rl |}).
Proof.
  intros Hsome Hafter.
  unfold isAllowed, mbind, State_bind, get, store, modify, mret, State_ret.
  rewrite Hsome. simpl. rewrite Hafter. simpl.
  by rewrite insert_insert_eq.
Qed.

Lemma isAllowed_full (ip : string) (now : Time) (rl : IPRateLimiter)
    (info : IPLimitInfo) :
  ips rl !! ip = Some info ->
  After now (resetTime info) = false ->
  maxRequest rl <= count info ->
  isAllowed ip now rl =
    (false, {| ips := <[ip := mkInfo (count info) (resetTime info) now]> (ips rl);
               maxRequest := maxRequest rl; window := window rl |}).
Proof.
  intros Hsome Hafter Hfull.
  unfold isAllowed, mbind, State_bind, get, store, modify, mret, State_ret.
  rewrite Hsome. simpl. rewrite Hafter.
  assert ((count info >=? maxRequest rl) = true) as -> by (apply Z.geb_le; lia).
  done.
Qed.

Lemma isAllowed_room (ip : string) (now : Time) (rl : IPRateLimiter)
    (info : IPLimitInfo) :
  ips rl !! ip = Some info ->
  After now (resetTime info) = false ->
  count info < maxRequest rl ->
  isAllowed ip now rl =
    (true, {| ips := <[ip := mkInfo (int_wrap (count info + 1)) (resetTime info) now]> (ips rl);
              maxRequest := maxRequest rl; window := window rl |}).
Proof.
  intros Hsome Hafter Hroom.
  unfold isAllowed, mbind, State_bind, get, store, modify, mret, State_ret.
  rewrite Hsome. simpl. rewrite Hafter.
  assert ((count info >=? maxRequest rl) = false) as ->.
  { destruct (count info >=? maxRequest rl) eqn:E; [|done].
    apply Z.geb_le in E. lia. }
  simpl. by rewrite insert_insert_eq.
Qed.

Lemma serve_cons (ip : string) (now : Time) (rest : list (string * Time))
    (rl : IPRateLimiter) :
  (serve ((ip, now) :: rest) rl).1 =
    (isAllowed ip now rl).1 :: (serve rest (isAllowed ip now rl).2).1.
Proof.
  simpl. unfold mbind, State_bind, mret, State_ret.
  destruct (isAllowed ip now rl) as [b rl1]. simpl.
  by destruct (serve rest rl1).
Qed.

Lemma earlier_0 (ip : string) (calls : list (string * Time)) :
  earlier ip calls 0 = 0%nat.
Proof. unfold earlier. by rewrite take_0. Qed.

Lemma earlier_S_same (ip : string) (now : Time) (rest : list (string * Time)) (i : nat) :
  earlier ip ((ip, now) :: rest) (S i) = S (earlier ip rest i).
Proof. unfold earlier. simpl. by rewrite filter_cons_True. Qed.

Lemma earlier_S_other (ip ip' : string) (now : Time) (rest : list (string * Time)) (i : nat) :
  ip' <> ip -> earlier ip ((ip', now) :: rest) (S i) = earlier ip rest i.
Proof. intros Hne. unfold earlier. simpl. by rewrite filter_cons_False. Qed.

(** Inside a window: once [j] requests of [ip] have been counted, the
    verdict of each further one depends on the number of requests of
    [ip] before it alone. *)
Lemma serve_in_window (ip : string) (reset : Time) (rest : list (string * Time)) :
  forall (rl : IPRateLimiter) (info : IPLimitInfo) (j : Z),
    1 <= maxRequest rl <= int_max ->
    ips rl !! ip = Some info ->
    resetTime info = reset ->
    1 <= j ->
    count info = Z.min j (maxRequest rl) ->
    in_window ip reset rest ->
    forall (i : nat) (t : Time),
      rest !! i = Some (ip, t) ->
      (serve rest rl).1 !! i =
        Some (bool_decide (j + Z.of_nat (earlier ip rest i) < maxRequest rl)).
Proof.
  induction rest as [|[ip' t'] rest IH]; intros rl info j Hmax Hinfo Hreset Hj Hcount Hwin i t Hi.
  { by rewrite lookup_nil in Hi. }
  unfold in_window in Hwin.
  rewrite serve_cons.
  apply Forall_cons in Hwin as [Hhead Hwin'].
  destruct (decide (ip' = ip)) as [->|Hne].
  - assert (After t' (resetTime info) = false) as Hafter.
    { rewrite Hreset. by apply Hhead. }
    destruct (Z_lt_le_dec (count info) (maxRequest rl)) as [Hroom|Hfull].
    + (* counted *)
      rewrite (isAllowed_room _ _ _ _ Hinfo Hafter Hroom).
      assert (count info = j) as Hcj by lia.
      rewrite int_wrap_id by (unfold is_int, int_min, int_max in *; lia).
      destruct i as [|i]; simpl.
      * rewrite earlier_0. f_equal. symmetry. apply bool_decide_eq_true. lia.
      * rewrite earlier_S_same.
        rewrite (IH _ (mkInfo (count info + 1) (resetTime info) t') (j + 1))
          with (t := t); simpl; try done; try lia.
        -- f_equal. apply bool_decide_ext. lia.
        -- by rewrite lookup_insert_eq.
    + (* rejected *)
      rewrite (isAllowed_full _ _ _ _ Hinfo Hafter Hfull).
      destruct i as [|i]; simpl.
      * rewrite earlier_0. f_equal. symmetry. apply bool_decide_eq_false. lia.
      * rewrite earlier_S_same.
        rewrite (IH _ (mkInfo (count info) (resetTime info) t') (j + 1))
          with (t := t); simpl; try done; try lia.
        -- f_equal. apply bool_decide_ext. lia.
        -- by rewrite lookup_insert_eq.
  - destruct i as [|i]; simpl.
    { simpl in Hi. congruence. }
    rewrite earlier_S_other by done.
    destruct (isAllowed_config ip' t' rl) as [Hm Hw].
    rewrite (IH _ info j) with (t := t); try done.
    + by rewrite Hm.
    + by rewrite Hm.
    + by rewrite isAllowed_frame.
    + by rewrite Hm.
Qed.

Lemma isAllowed_opens (ip : string) (now : Time) (rl : IPRateLimiter) :
  opens_window rl ip now ->
  isAllowed ip now rl =
    (true, {| ips := <[ip := mkInfo 1 (Add now (window rl)) now]> (ips rl);
              maxRequest := maxRequest rl; window := window rl |}).
Proof.
  unfold opens_window. intros Hopen.
  destruct (ips rl !! ip) as [info|] eqn:E.
  - by apply isAllowed_expired with info.
  - by apply isAllowed_unknown.
Qed.

Lemma isAllowed_rejected_keeps_count (rl : IPRateLimiter) (ip : string) (now : Time) :
  rejected_keeps_count rl ip now.
Proof.
  unfold rejected_keeps_count. intros Hrej.
  destruct (ips rl !! ip) as [info|] eqn:E.
  - destruct (After now (resetTime info)) eqn:Hafter.
    { rewrite (isAllowed_expired _ _ _ _ E Hafter) in Hrej. done. }
    destruct (Z_lt_le_dec (count info) (maxRequest rl)) as [Hroom|Hfull].
    { rewrite (isAllowed_room _ _ _ _ E Hafter Hroom) in Hrej. done. }
    rewrite (isAllowed_full _ _ _ _ E Hafter Hfull). simpl.
    exists info, (mkInfo (count info) (resetTime info) now).
    by rewrite lookup_insert_eq.
  - rewrite (isAllowed_unknown _ _ _ E) in Hrej. done.
Qed.

(** C1, as amended: with a quota of at least one request, in every run of
    requests in which [ip] opens a window at [t0] and makes its other
    requests no later than the end of that window (requests of other IPs
    interleaved at will), each request of [ip] preceded by fewer than
    [maxRequest] of its requests is allowed and the one preceded by
    exactly [maxRequest] of them is rejected; and a rejected request never
    changes the stored counter. *)
Theorem isAllowed_window_quota (rl : IPRateLimiter) (ip : string) (t0 : Time)
    (rest : list (string * Time)) :
  is_int (maxRequest rl) ->
  1 <= maxRequest rl ->
  opens_window rl ip t0 ->
  in_window ip (Add t0 (window rl)) rest ->
  window_quota rl ip ((ip, t0) :: rest) /\
  (forall (s : IPRateLimiter) (now : Time), rejected_keeps_count s ip now).
Proof.
  intros Hint Hmax Hopen Hwin. split; [|intros s now; apply isAllowed_rejected_keeps_count].
  intros i t Hi n. subst n.
  rewrite serve_cons, (isAllowed_opens _ _ _ Hopen). simpl.
  destruct i as [|i]; simpl.
  { rewrite earlier_0. split; [done|]. simpl. lia. }
  simpl in Hi. rewrite earlier_S_same.
  rewrite (serve_in_window ip (Add t0 (window rl)) rest _
             (mkInfo 1 (Add t0 (window rl)) t0) 1) with (t := t);
    simpl; try done; try lia.
  - split; intros Hn; f_equal.
    + apply bool_decide_eq_true. lia.
    + apply bool_decide_eq_false. lia.
  - unfold is_int in Hint. lia.
  - by rewrite lookup_insert_eq.
Qed.

Lemma isAllowed_window_quota_witness :
  window_quota (NewIPRateLimiter 2 1) client
    [(client, 0); (client, 5); ("198.51.100.2"%string, 6); (client, 7)] /\
  (forall (s : IPRateLimiter) (now : Time), rejected_keeps_count s client now).
Proof.
  apply (isAllowed_window_quota (NewIPRateLimiter 2 1) client 0
           [(client, 5); ("198.51.100.2"%string, 6); (client, 7)]).
  - unfold is_int, int_min, int_max. simpl. lia.
  - simpl. lia.
  - exact I.
  - repeat (apply Forall_cons; split; [intros _; reflexivity|]). constructor.
Defined.

(** C1, as stated, fails for a quota of zero: the first request of a new
    IP, which is request number [maxRequest + 1], is allowed. *)
Lemma window_quota_fails_for_zero_quota :
  is_int (maxRequest zero_quota) /\
  opens_window zero_quota client 0 /\
  in_window client (Add 0 (window zero_quota)) [] /\
  ~ window_quota zero_quota client [(client, 0)].
Proof.
  split; [unfold is_int, int_min, int_max; simpl; lia|].
  split; [exact I|]. split; [constructor|].
  intros Hq. destruct (Hq 0%nat 0 eq_refl) as [_ Hrej].
  specialize (Hrej eq_refl).
  rewrite serve_cons in Hrej. simpl in Hrej.
  rewrite (isAllowed_unknown client 0 zero_quota) in Hrej by apply lookup_empty.
  discriminate Hrej.
Qed.

(** C2, as amended: for an IP with an entry, a request made strictly
    after [resetTime] is allowed, restarts the counter at exactly 1 and
    moves [resetTime] to [now + window]; a request made at the instant
    [resetTime] itself still belongs to the old window: it is judged
    against the old counter and [resetTime] stays. *)
Theorem isAllowed_rolls_over_after_reset (rl : IPRateLimiter) (ip : string)
    (info : IPLimitInfo) (now : Time) :
  ips rl !! ip = Some info ->
  resetTime info < now ->
  rolls_over rl ip now /\
  (isAllowed ip (resetTime info) rl).1 = bool_decide (count info < maxRequest rl) /\
  exists info',
    ips (isAllowed ip (resetTime info) rl).2 !! ip = Some info' /\
    resetTime info' = resetTime info.
Proof.
  intros Hinfo Hlt. split.
  - unfold rolls_over.
    assert (After now (resetTime info) = true) as Hafter
      by (unfold After; by apply Z.ltb_lt).
    rewrite (isAllowed_expired _ _ _ _ Hinfo Hafter). simpl.
    split; [done|]. eexists. rewrite lookup_insert_eq. done.
  - assert (After (resetTime info) (resetTime info) = false) as Hafter
      by (unfold After; apply Z.ltb_irrefl).
    destruct (Z_lt_le_dec (count info) (maxRequest rl)) as [Hroom|Hfull].
    + rewrite (isAllowed_room _ _ _ _ Hinfo Hafter Hroom). simpl. split.
      * symmetry. by apply bool_decide_eq_true.
      * eexists. rewrite lookup_insert_eq. done.
    + rewrite (isAllowed_full _ _ _ _ Hinfo Hafter Hfull). simpl. split.
      * symmetry. apply bool_decide_eq_false. lia.
      * eexists. rewrite lookup_insert_eq. done.
Qed.

Lemma spent_quota_entry :
  ips spent_quota !! client = Some (mkInfo 1 60000000000 0).
Proof.
  unfold spent_quota.
  rewrite (isAllowed_unknown client 0 (NewIPRateLimiter 1 1)) by apply lookup_empty.
  simpl. by rewrite lookup_insert_eq.
Qed.

Lemma isAllowed_rolls_over_after_reset_witness :
  rolls_over spent_quota client 60000000001 /\
  (isAllowed client 60000000000 spent_quota).1 =
    bool_decide (1 < maxRequest spent_quota) /\
  exists info',
    ips (isAllowed client 60000000000 spent_quota).2 !! client = Some info' /\
    resetTime info' = 60000000000.
Proof.
  apply (isAllowed_rolls_over_after_reset spent_quota client
           (mkInfo 1 60000000000 0) 60000000001).
  - reflexivity.
  - simpl. lia.
Defined.

(** C2, as stated, fails at the boundary: a request made at the instant
    [resetTime] does not roll the window over (here it is rejected). *)
Lemma rolls_over_fails_at_resetTime :
  ips spent_quota !! client = Some (mkInfo 1 60000000000 0) /\
  resetTime (mkInfo 1 60000000000 0) <= 60000000000 /\
  ~ rolls_over spent_quota client 60000000000.
Proof.
  split; [apply spent_quota_entry|]. split; [simpl; lia|].
  intros [Hallowed _].
  rewrite (isAllowed_full client 60000000000 spent_quota _ spent_quota_entry)
    in Hallowed; [discriminate Hallowed|reflexivity|].
  unfold spent_quota.
  rewrite (isAllowed_unknown client 0 (NewIPRateLimiter 1 1)) by apply lookup_empty.
  simpl. lia.
Qed.

Lemma getRemainingRequests_reads (ip : string) (now : Time) (rl : IPRateLimiter) :
  (getRemainingRequests ip now rl).2 = rl.
Proof.
  unfold getRemainingRequests, mbind, State_bind, get, mret, State_ret.
  destruct (ips rl !! ip) as [info|]; [|done].
  destruct (After now (resetTime info)); [done|].
  by destruct (int_wrap (maxRequest rl - count info) <? 0).
Qed.

Lemma getResetTime_reads (ip : string) (now : Time) (rl : IPRateLimiter) :
  (getResetTime ip now rl).2 = rl.
Proof.
  unfold getResetTime, mbind, State_bind, get, mret, State_ret.
  destruct (ips rl !! ip) as [info|]; [|done].
  by destruct (After now (resetTime info)).
Qed.

(** C9: [getRemainingRequests] and [getResetTime] return the limiter
    exactly as they found it, for every IP, instant and limiter state: no
    entry is created and no field of any entry changes.  [isAllowed], in
    contrast, always writes the entry of its IP. *)
Theorem readers_leave_limiter_unchanged (rl : IPRateLimiter) (ip : string) (now : Time) :
  (getRemainingRequests ip now rl).2 = rl /\
  (getResetTime ip now rl).2 = rl /\
  exists info,
    ips (isAllowed ip now rl).2 !! ip = Some info /\ lastAccess info = now.
Proof.
  split; [apply getRemainingRequests_reads|]. split; [apply getResetTime_reads|].
  destruct (ips rl !! ip) as [info|] eqn:E.
    + destruct (After now (resetTime info)) eqn:Hafter.
      { rewrite (isAllowed_expired _ _ _ _ E Hafter). simpl.
        eexists. by rewrite lookup_insert_eq. }
      destruct (Z_lt_le_dec (count info) (maxRequest rl)) as [Hroom|Hfull].
      * rewrite (isAllowed_room _ _ _ _ E Hafter Hroom). simpl.
        eexists. by rewrite lookup_insert_eq.
      * rewrite (isAllowed_full _ _ _ _ E Hafter Hfull). simpl.
        eexists. by rewrite lookup_insert_eq.
    + rewrite (isAllowed_unknown _ _ _ E). simpl.
      eexists. by rewrite lookup_insert_eq.
Qed.

(** C10: a request that opens a window (the IP has no entry, or its
    window is over) is allowed and leaves an entry with [count = 1],
    whatever [maxRequest] is: the quota is not looked at on this path.
    So the first request of an IP is allowed under a quota of zero or
    below, too. *)
Theorem first_request_ignores_quota (rl : IPRateLimiter) (ip : string) (now : Time) :
  opens_window rl ip now ->
  (isAllowed ip now rl).1 = true /\
  ips (isAllowed ip now rl).2 !! ip = Some (mkInfo 1 (Add now (window rl)) now) /\
  forall m : Z,
    isAllowed ip now (mkLimiter (ips rl) m (window rl)) =
    (true, mkLimiter (ips (isAllowed ip now rl).2) m (window rl)).
Proof.
  intros Hopen. rewrite (isAllowed_opens _ _ _ Hopen). simpl.
  split; [done|]. split; [by rewrite lookup_insert_eq|].
  intros m. by rewrite (isAllowed_opens ip now (mkLimiter (ips rl) m (window rl))).
Qed.

Lemma first_request_ignores_quota_witness :
  (isAllowed client 0 zero_quota).1 = true /\
  ips (isAllowed client 0 zero_quota).2 !! client =
    Some (mkInfo 1 (Add 0 (window zero_quota)) 0) /\
  forall m : Z,
    isAllowed client 0 (mkLimiter (ips zero_quota) m (window zero_quota)) =
    (true, mkLimiter (ips (isAllowed client 0 zero_quota).2) m (window zero_quota)).
Proof.
  apply (first_request_ignores_quota zero_quota client 0). exact I.
Defined.

End Limiter.

Section Allocator.
Import Go Errors Models Process Services.
Import Repository (DB, links, fault, short_codes, First_by_short_code, Create, unique_violation).

Lemma string_app_cons (x : ascii) (a b : string) :
  (String x a ++ b = String x (a ++ b))%string.
Proof. reflexivity. Qed.

Lemma string_app_nil_r (a : string) : (a ++ EmptyString = a)%string.
Proof.
  induction a as [|x a IH]; [reflexivity|]. by rewrite string_app_cons, IH.
Qed.

Lemma string_app_assoc (a b c : string) :
  ((a ++ b) ++ c = a ++ (b ++ c))%string.
Proof.
  induction a as [|x a IH]; [reflexivity|]. by rewrite !string_app_cons, IH.
Qed.

Lemma string_get_In (s : string) (n : nat) (c : ascii) :
  String.get n s = Some c -> In c (list_ascii_of_string s).
Proof.
  revert n. induction s as [|x s IH]; intros n Hget; simpl in *; [done|].
  destruct n as [|n].
  - left. congruence.
  - right. by apply IH with n.
Qed.

Lemma charset_at_In (i : Z) (c : ascii) :
  charset_at i = Some c -> In c (list_ascii_of_string charset).
Proof.
  unfold charset_at. destruct (i <? 0); [done|]. apply string_get_In.
Qed.

(** A code spelled by [n] draws has [n] bytes, all of the charset. *)
Lemma code_from_shape (ent : nat -> RandInt) (n k : nat) (code : string) :
  code_from ent k n = Some code ->
  String.length code = n /\
  Forall (fun c => In c (list_ascii_of_string charset)) (list_ascii_of_string code).
Proof.
  revert k code. induction n as [|n IH]; intros k code Hcode; simpl in Hcode.
  - injection Hcode as <-. split; [done|constructor].
  - destruct (ent k) as [i|]; [|done].
    destruct (charset_at i) as [c|] eqn:Hc; [|done].
    destruct (code_from ent (S k) n) as [rest|] eqn:Hrest; [|done].
    injection Hcode as <-. destruct (IH _ _ Hrest) as [Hlen Hall].
    split; simpl; [by rewrite Hlen|].
    constructor; [by apply charset_at_In with i|done].
Qed.

Section AnyRepository.
Context {R : Type} `{!Repository.LinkRepository R}.

(** [fill] on draws that spell a code. *)
Lemma fill_spelled (n : nat) :
  forall (acc code : string) (w : World R),
    code_from (entropy w) (drawn w) n = Some code ->
    fill n acc w = (Ok (acc ++ code)%string, after_draws n w).
Proof.
  induction n as [|n IH]; intros acc code w Hcode; simpl in Hcode.
  - injection Hcode as <-. simpl. unfold mret, State_ret, after_draws.
    destruct w; simpl. f_equal.
    + by rewrite string_app_nil_r.
    + f_equal. lia.
  - destruct (entropy w (drawn w)) as [i|] eqn:Hdraw; [|done].
    destruct (charset_at i) as [c|] eqn:Hc; [|done].
    destruct (code_from (entropy w) (S (drawn w)) n) as [rest|] eqn:Hrest; [|done].
    injection Hcode as <-.
    simpl. unfold mbind, State_bind, rand_Int. rewrite Hdraw, Hc.
    rewrite (IH _ rest) by done.
    rewrite string_app_assoc. simpl. unfold after_draws. simpl.
    do 2 f_equal. lia.
Qed.

(** Whatever [fill] does, it only draws; when it yields a string, the
    draws spelled it. *)
Lemma fill_inv (n : nat) :
  forall (acc : string) (w w' : World R) (r : outcome string),
    fill n acc w = (r, w') ->
    (exists m : nat, w' = after_draws m w) /\
    (forall s : string, r = Ok s ->
       exists code : string,
         code_from (entropy w) (drawn w) n = Some code /\
         s = (acc ++ code)%string /\ w' = after_draws n w).
Proof.
  induction n as [|n IH]; intros acc w w' r Hfill; simpl in Hfill.
  - unfold mret, State_ret in Hfill. injection Hfill as <- <-.
    assert (w = after_draws 0 w) as Hw.
    { unfold after_draws. destruct w; simpl. f_equal. lia. }
    split; [by exists 0%nat|].
    intros s [= <-]. exists EmptyString. split; [done|]. split; [|done].
    by rewrite string_app_nil_r.
  - unfold mbind, State_bind, rand_Int in Hfill.
    destruct (entropy w (drawn w)) as [i|] eqn:Hdraw.
    + destruct (charset_at i) as [c|] eqn:Hc.
      * apply IH in Hfill as [[m Hm] Hok]. simpl in *. split.
        -- exists (S m). rewrite Hm. unfold after_draws. simpl. f_equal. lia.
        -- intros s Hs. destruct (Hok s Hs) as (rest & Hrest & -> & ->).
           exists (String c rest). rewrite Hdraw, Hc, Hrest.
           split; [done|]. rewrite string_app_assoc. split; [done|].
           unfold after_draws. simpl. f_equal. lia.
      * injection Hfill as <- <-. split; [|done].
        exists 1%nat. unfold after_draws. simpl. f_equal. lia.
    + injection Hfill as <- <-. split; [|done].
      exists 1%nat. unfold after_draws. simpl. f_equal. lia.
Qed.

Lemma GenerateShortCode_6 : GenerateShortCode (R := R) 6 = fill 6 EmptyString.
Proof. reflexivity. Qed.

End AnyRepository.

(** *** The GORM repository *)

Lemma on_repo_lookup (code : string) (w : World DB) :
  on_repo (Repository.GetLinkByShortCode code) w = (First_by_short_code code (repo w), w).
Proof. unfold on_repo. simpl. by destruct w. Qed.

Lemma existsb_eqb_In (code : string) (codes : list string) :
  existsb (String.eqb code) codes = true <-> In code codes.
Proof.
  rewrite existsb_exists. split.
  - intros (x & Hin & Heq). apply String.eqb_eq in Heq. by subst.
  - intros Hin. exists code. split; [done|apply String.eqb_refl].
Qed.

Lemma find_short_code (code : string) (ls : list Link) :
  match find (fun l => String.eqb (ShortCode l) code) ls with
  | Some l => ShortCode l = code /\ In l ls
  | None => ~ In code (map ShortCode ls)
  end.
Proof.
  induction ls as [|l ls IH]; simpl; [tauto|].
  destruct (String.eqb (ShortCode l) code) eqn:E.
  - apply String.eqb_eq in E. tauto.
  - apply String.eqb_neq in E.
    destruct (find _ ls); [tauto|]. intros [?|?]; tauto.
Qed.

Lemma First_found (code : string) (db : DB) :
  fault db = None -> In code (short_codes db) ->
  exists l : Link, First_by_short_code code db = inl l /\ ShortCode l = code.
Proof.
  intros Hfault Hin. unfold First_by_short_code. rewrite Hfault.
  pose proof (find_short_code code (links db)) as Hfind.
  destruct (find _ (links db)) as [l|]; [|done].
  exists l. tauto.
Qed.

Lemma First_not_found (code : string) (db : DB) (err : error) :
  First_by_short_code code db = inr err -> IsRecordNotFound err = true ->
  fault db = None /\ ~ In code (short_codes db).
Proof.
  unfold First_by_short_code. destruct (fault db) as [msg|].
  { intros [= <-]. done. }
  pose proof (find_short_code code (links db)) as Hfind.
  destruct (find _ (links db)) as [l|]; [done|]. by intros _ _.
Qed.

(** A run of collisions: every attempt spells a code that the table
    holds, so the loop goes through all of them and ends with an empty
    [shortCode]. *)
Lemma retry_collisions (codes : list string) :
  forall (i : Z) (w : World DB),
    fault (repo w) = None ->
    (forall (k : nat) (code : string),
       codes !! k = Some code ->
       candidate w k = Some code /\ In code (short_codes (repo w))) ->
    retry (length codes) i w =
      (Ok EmptyString,
       with_logs (imap (fun k code => LogCollision code (i + Z.of_nat k + 1) maxRetries) codes)
         (after_draws (6 * length codes) w)).
Proof.
  induction codes as [|c cs IH]; intros i w Hfault Hall.
  - simpl. unfold mret, State_ret, with_logs, after_draws. destruct w; simpl.
    do 2 f_equal; [lia|by rewrite app_nil_r].
  - destruct (Hall 0%nat c eq_refl) as [Hcand Hin].
    unfold candidate in Hcand. rewrite Nat.mul_0_r, Nat.add_0_r in Hcand.
    cbn [length retry]. rewrite GenerateShortCode_6.
    unfold mbind, State_bind at 1. rewrite (fill_spelled 6 EmptyString c w Hcand).
    change (EmptyString ++ c)%string with c.
    unfold mbind, State_bind at 1. rewrite on_repo_lookup.
    destruct (First_found c (repo (after_draws 6 w))) as (l & -> & _); [done..|].
    unfold mbind, State_bind at 1, log_Printf, modify.
    rewrite (IH (i + 1)); [| done |].
    + unfold with_logs, after_draws. simpl. f_equal. f_equal; [lia|].
      rewrite <- app_assoc. f_equal. simpl. f_equal.
      * f_equal. lia.
      * apply imap_ext. intros k code _. simpl. f_equal. lia.
    + intros k code Hk. destruct (Hall (S k) code Hk) as [Hc Hi]. split; [|done].
      unfold candidate in *. simpl entropy. simpl drawn.
      replace (drawn w + 6 + 6 * k)%nat with (drawn w + 6 * S k)%nat by lia. done.
Qed.

(** Whatever the retry loop does, it leaves the repository alone; the
    code it ends with is empty, or has six bytes of the charset and was
    absent from the table when it was looked up. *)
Lemma retry_inv (n : nat) :
  forall (i : Z) (w w' : World DB) (r : outcome string),
    retry n i w = (r, w') ->
    repo w' = repo w /\
    (forall code : string, r = Ok code ->
       code = EmptyString \/
       (String.length code = 6%nat /\
        Forall (fun c => In c (list_ascii_of_string charset)) (list_ascii_of_string code) /\
        fault (repo w) = None /\
        ~ In code (short_codes (repo w)))).
Proof.
  induction n as [|n IH]; intros i w w' r Hrun.
  - simpl in Hrun. injection Hrun as <- <-. split; [done|]. intros code [= <-]. by left.
  - cbn [retry] in Hrun. rewrite GenerateShortCode_6 in Hrun.
    unfold mbind, State_bind at 1 in Hrun.
    destruct (fill 6 EmptyString w) as [g w1] eqn:Hfill.
    apply fill_inv in Hfill as [[m Hm] Hspelled].
    assert (repo w1 = repo w) as Hrepo1 by (by rewrite Hm).
    destruct g as [code|err|msg].
    + destruct (Hspelled code eq_refl) as (spelled & Hcode & Happ & _).
      change (EmptyString ++ spelled)%string with spelled in Happ. subst spelled.
      apply code_from_shape in Hcode as [Hlen Hchars].
      unfold mbind, State_bind at 1 in Hrun. rewrite on_repo_lookup in Hrun.
      destruct (First_by_short_code code (repo w1)) as [l|err] eqn:Hlook.
      * unfold mbind, State_bind at 1, log_Printf, modify in Hrun.
        apply IH in Hrun as [Hrepo Hok]. simpl in Hrepo, Hok.
        rewrite Hrepo1 in Hrepo, Hok. done.
      * destruct (IsRecordNotFound err) eqn:Hnf.
        -- injection Hrun as <- <-. split; [done|].
           intros c [= <-]. right.
           apply First_not_found in Hlook as [Hfault Hfree]; [|done].
           rewrite Hrepo1 in Hfault, Hfree. done.
        -- injection Hrun as <- <-. done.
    + injection Hrun as <- <-. done.
    + injection Hrun as <- <-. done.
Qed.

Lemma pickShortCode_inv (w w' : World DB) (code : string) :
  pickShortCode w = (Ok code, w') ->
  repo w' = repo w /\
  String.length code = 6%nat /\
  Forall (fun c => In c (list_ascii_of_string charset)) (list_ascii_of_string code) /\
  fault (repo w) = None /\
  ~ In code (short_codes (repo w)).
Proof.
  unfold pickShortCode. unfold mbind, State_bind at 1.
  destruct (retry (Z.to_nat maxRetries) 0 w) as [r w1] eqn:Hrun.
  apply retry_inv in Hrun as [Hrepo Hok].
  destruct r as [c|err|msg]; [|done..].
  destruct (String.eqb c EmptyString) eqn:Hempty; [done|].
  intros [= -> ->]. split; [done|].
  destruct (Hok code eq_refl) as [->|H]; [|done].
  by rewrite String.eqb_refl in Hempty.
Qed.

Lemma persistLink_inv (w w' : World DB) (code longURL : string) (link : Link) :
  persistLink code longURL w = (Ok link, w') ->
  ShortCode link = code /\ links (repo w') = links (repo w) ++ [link].
Proof.
  unfold persistLink, mbind, State_bind, on_repo. simpl. unfold Create.
  destruct (fault (repo w)); [done|].
  destruct (existsb _ (links (repo w))); [done|].
  simpl. intros [= <- <-]. done.
Qed.

(** C8: a random allocation that succeeds returns a link whose code has
    exactly six bytes, each of them of the charset, and no link of the
    repository carried that code when the existence check ran; the
    repository then holds this one link more. *)
Theorem CreateLink_code_is_fresh (w w' : World DB) (longURL : string) (link : Link) :
  CreateLink longURL w = (Ok link, w') ->
  String.length (ShortCode link) = 6%nat /\
  Forall (fun c => In c (list_ascii_of_string charset))
    (list_ascii_of_string (ShortCode link)) /\
  ~ In (ShortCode link) (short_codes (repo w)) /\
  links (repo w') = links (repo w) ++ [link].
Proof.
  unfold CreateLink. unfold mbind, State_bind at 1.
  destruct (pickShortCode w) as [picked w1] eqn:Hpick.
  destruct picked as [code|err|msg]; [|done..].
  intros Hpersist.
  apply pickShortCode_inv in Hpick as (Hrepo & Hlen & Hchars & _ & Hfree).
  apply persistLink_inv in Hpersist as [-> Hlinks].
  rewrite Hrepo in Hlinks. done.
Qed.

Lemma CreateLink_code_is_fresh_witness :
  String.length (ShortCode (mkLink 1 "aaaaaa" "https://example.com" 1000 true None false))
    = 6%nat /\
  Forall (fun c => In c (list_ascii_of_string charset))
    (list_ascii_of_string
       (ShortCode (mkLink 1 "aaaaaa" "https://example.com" 1000 true None false))) /\
  ~ In (ShortCode (mkLink 1 "aaaaaa" "https://example.com" 1000 true None false))
      (short_codes (repo fresh_world)) /\
  links (repo crowded_world) =
    links (repo fresh_world) ++
      [mkLink 1 "aaaaaa" "https://example.com" 1000 true None false].
Proof.
  apply (CreateLink_code_is_fresh fresh_world crowded_world "https://example.com").
  vm_compute. reflexivity.
Defined.

(** C5: when each of the five attempts of a random allocation spells a
    code that the repository already holds, [CreateLink] stops after
    exactly five attempts (thirty draws, five logged collisions, numbered 1
    to 5) and returns the error of exhaustion; the repository is the one
    it started with, no link was inserted. *)
Theorem CreateLink_exhausted_after_5 (w : World DB) (longURL : string)
    (codes : list string) :
  fault (repo w) = None ->
  length codes = 5%nat ->
  (forall (k : nat) (code : string),
     codes !! k = Some code ->
     candidate w k = Some code /\ In code (short_codes (repo w))) ->
  CreateLink longURL w =
    (Err exhausted, with_logs (collision_lines codes) (after_draws 30 w)) /\
  repo (CreateLink longURL w).2 = repo w.
Proof.
  intros Hfault Hlen Hall.
  assert (CreateLink longURL w =
    (Err exhausted, with_logs (collision_lines codes) (after_draws 30 w))) as Heq.
  { unfold CreateLink, pickShortCode.
    change (Z.to_nat maxRetries) with 5%nat. rewrite <- Hlen.
    unfold mbind, State_bind at 1. unfold mbind, State_bind at 1.
    rewrite (retry_collisions codes 0 w Hfault Hall). rewrite Hlen.
    change (6 * 5)%nat with 30%nat. simpl String.eqb. cbn iota.
    unfold mret, State_ret. unfold collision_lines. simpl. done. }
  split; [done|]. by rewrite Heq.
Qed.

Lemma crowded_world_holds_aaaaaa :
  fault (repo crowded_world) = None /\
  short_codes (repo crowded_world) = ["aaaaaa"%string] /\
  drawn crowded_world = 6%nat.
Proof. vm_compute. done. Qed.

Lemma CreateLink_exhausted_after_5_witness :
  CreateLink "https://example.org" crowded_world =
    (Err exhausted,
     with_logs (collision_lines (replicate 5 "aaaaaa"%string))
       (after_draws 30 crowded_world)) /\
  repo (CreateLink "https://example.org" crowded_world).2 = repo crowded_world.
Proof.
  apply (CreateLink_exhausted_after_5 crowded_world "https://example.org"
           (replicate 5 "aaaaaa"%string)).
  - reflexivity.
  - reflexivity.
  - intros k code Hk.
    do 5 (destruct k as [|k];
          [injection Hk as <-; split; [reflexivity|left; reflexivity]|]).
    discriminate Hk.
Defined.

(** *** Custom aliases *)

Lemma is_alias_char_spec (c : ascii) : is_alias_char c = is_letter_digit_hyphen c.
Proof. by destruct c as [[] [] [] [] [] [] [] []]. Qed.

Lemma existsb_short_code (alias : string) (ls : list Link) :
  existsb (fun l => String.eqb (ShortCode l) alias) ls =
    existsb (String.eqb alias) (map ShortCode ls).
Proof.
  induction ls as [|l ls IH]; simpl; [done|].
  by rewrite IH, String.eqb_sym.
Qed.

(** The tests of [checkCustomAlias], one by one, against the rules. *)
Lemma rule1_spec (db : DB) (alias : string) :
  String.eqb alias EmptyString = negb (rule_holds db alias NonEmpty).
Proof. simpl. by rewrite negb_involutive. Qed.

Lemma rule2_spec (db : DB) (alias : string) :
  (len alias <? 3) || (20 <? len alias) = negb (rule_holds db alias LengthWithin3And20).
Proof.
  unfold len, rule_holds.
  destruct (Z.ltb_spec (Z.of_nat (String.length alias)) 3);
    destruct (Z.ltb_spec 20 (Z.of_nat (String.length alias)));
    destruct (Nat.leb_spec 3 (String.length alias));
    destruct (Nat.leb_spec (String.length alias) 20); simpl; try done; lia.
Qed.

Lemma rule3_spec (db : DB) (alias : string) :
  alias <> EmptyString ->
  validAliasPattern_MatchString alias = rule_holds db alias LettersDigitsHyphen.
Proof.
  intros Hne. destruct alias as [|c rest]; [done|].
  unfold validAliasPattern_MatchString, rule_holds.
  induction (list_ascii_of_string (String c rest)) as [|x xs IH]; simpl; [done|].
  by rewrite is_alias_char_spec, IH.
Qed.

Lemma rule4_spec (db : DB) (alias : string) :
  existsb (String.eqb alias) reservedWords = negb (rule_holds db alias NotReserved).
Proof. unfold rule_holds. by rewrite negb_involutive. Qed.

Lemma rule5_spec (db : DB) (alias : string) :
  fault db = None ->
  match First_by_short_code alias db with
  | inl _ => rule_holds db alias NotInUse = false
  | inr err => err = ErrRecordNotFound /\ rule_holds db alias NotInUse = true
  end.
Proof.
  intros Hfault. unfold First_by_short_code, rule_holds. rewrite Hfault.
  pose proof (find_short_code alias (links db)) as Hfind.
  destruct (find _ (links db)) as [l|].
  - apply negb_false_iff, existsb_eqb_In. destruct Hfind as [<- Hin]. by apply in_map.
  - split; [done|]. apply negb_true_iff, not_true_is_false. by rewrite existsb_eqb_In.
Qed.

Lemma first_violation_unfold (db : DB) (alias : string) :
  first_violation db alias =
    if negb (rule_holds db alias NonEmpty) then Some NonEmpty
    else if negb (rule_holds db alias LengthWithin3And20) then Some LengthWithin3And20
    else if negb (rule_holds db alias LettersDigitsHyphen) then Some LettersDigitsHyphen
    else if negb (rule_holds db alias NotReserved) then Some NotReserved
    else if negb (rule_holds db alias NotInUse) then Some NotInUse
    else None.
Proof. reflexivity. Qed.

Lemma string_app_inv_head (a b c : string) :
  (a ++ b)%string = (a ++ c)%string -> b = c.
Proof.
  induction a as [|x a IH]; [done|].
  rewrite !string_app_cons. intros Heq. injection Heq as Heq. by apply IH.
Qed.

(** The errors of the five rules are pairwise distinct, whatever the
    alias: the error tells which rule was violated. *)
Lemma rule_error_inj (alias : string) (rule rule' : AliasRule) :
  rule_error alias rule = rule_error alias rule' -> rule = rule'.
Proof.
  assert (alias_reserved alias <> alias_taken alias) as Hparam.
  { unfold alias_reserved, alias_taken. intros Heq. injection Heq as Heq.
    apply string_app_inv_head, string_app_inv_head in Heq. discriminate Heq. }
  destruct rule, rule'; try done;
    unfold rule_error, alias_empty, alias_length, alias_charset, alias_reserved,
      alias_taken;
    intros Heq; try (by destruct Hparam);
    try (injection Heq as Heq; rewrite ?string_app_cons in Heq; discriminate Heq).
Qed.

(** C6, as amended: [CreateLinkWithCustomAlias] checks the five rules in
    the order "non-empty, length within 3 and 20, letters digits and
    hyphen, not reserved, not in use": when a rule is violated it returns
    the error of the first violated one and leaves the world as it was (no
    link record, no log line); when none is, it inserts one custom link
    with the alias as its code.  The errors of the five rules are pairwise
    distinct, so the error identifies the rule.  In particular an alias
    that is the code of a link of the repository is always refused and
    never gives a second record; the error is that of the first rule it
    violates, which is "already used" exactly when the alias passes the
    four rules before. *)
Theorem CreateLinkWithCustomAlias_first_violation (w : World DB)
    (longURL alias : string) :
  fault (repo w) = None ->
  match first_violation (repo w) alias with
  | Some rule =>
      CreateLinkWithCustomAlias longURL alias w = (Err (rule_error alias rule), w)
  | None =>
      exists (link : Link) (w' : World DB),
        CreateLinkWithCustomAlias longURL alias w = (Ok link, w') /\
        ShortCode link = alias /\ IsCustom link = true /\
        links (repo w') = links (repo w) ++ [link]
  end /\
  (forall rule rule' : AliasRule,
     rule_error alias rule = rule_error alias rule' -> rule = rule') /\
  (In alias (short_codes (repo w)) ->
   exists rule : AliasRule,
     first_violation (repo w) alias = Some rule /\
     CreateLinkWithCustomAlias longURL alias w = (Err (rule_error alias rule), w) /\
     (rule = NotInUse <->
      forallb (rule_holds (repo w) alias)
        [NonEmpty; LengthWithin3And20; LettersDigitsHyphen; NotReserved] = true)).
Proof.
  intros Hfault.
  assert (match first_violation (repo w) alias with
          | Some rule =>
              CreateLinkWithCustomAlias longURL alias w = (Err (rule_error alias rule), w)
          | None =>
              exists (link : Link) (w' : World DB),
                CreateLinkWithCustomAlias longURL alias w = (Ok link, w') /\
                ShortCode link = alias /\ IsCustom link = true /\
                links (repo w') = links (repo w) ++ [link]
          end) as Hmain.
  { rewrite first_violation_unfold.
    unfold CreateLinkWithCustomAlias, checkCustomAlias.
    rewrite (rule1_spec (repo w)), (rule2_spec (repo w)), (rule4_spec (repo w)).
    destruct (rule_holds (repo w) alias NonEmpty) eqn:H1; cbn [negb]; [|done].
    destruct (rule_holds (repo w) alias LengthWithin3And20); cbn [negb]; [|done].
    rewrite (rule3_spec (repo w)).
    2:{ intros ->. discriminate H1. }
    destruct (rule_holds (repo w) alias LettersDigitsHyphen); cbn [negb]; [|done].
    destruct (rule_holds (repo w) alias NotReserved); cbn [negb]; [|done].
    pose proof (rule5_spec (repo w) alias Hfault) as Huse.
    destruct (First_by_short_code alias (repo w)) as [l|err] eqn:Hlook.
    - rewrite Huse. cbn [negb].
      unfold mbind, State_bind. rewrite on_repo_lookup, Hlook. done.
    - destruct Huse as [-> Hfree]. rewrite Hfree. cbn [negb].
      unfold mbind, State_bind. rewrite on_repo_lookup, Hlook. cbn [IsRecordNotFound].
      unfold persistCustomAlias, mbind, State_bind, on_repo. simpl. unfold Create.
      change (ShortCode (newLink alias longURL true)) with alias.
      rewrite Hfault, existsb_short_code. fold (short_codes (repo w)).
      unfold rule_holds in Hfree. apply negb_true_iff in Hfree. rewrite Hfree.
      simpl. eexists _, _. done. }
  split; [exact Hmain|]. split; [apply rule_error_inj|].
  intros Hin.
  assert (rule_holds (repo w) alias NotInUse = false) as H5.
  { unfold rule_holds. apply negb_false_iff. by apply existsb_eqb_In. }
  rewrite first_violation_unfold in Hmain. rewrite first_violation_unfold, H5.
  rewrite H5 in Hmain. cbn [forallb].
  destruct (rule_holds (repo w) alias NonEmpty);
    destruct (rule_holds (repo w) alias LengthWithin3And20);
    destruct (rule_holds (repo w) alias LettersDigitsHyphen);
    destruct (rule_holds (repo w) alias NotReserved);
    cbn [negb andb] in Hmain |- *;
    (eexists; split; [reflexivity|]; split; [exact Hmain|]; by split).
Qed.

Lemma CreateLinkWithCustomAlias_first_violation_witness :
  CreateLinkWithCustomAlias "https://example.net" "aaaaaa" crowded_world =
    (Err (rule_error "aaaaaa" NotInUse), crowded_world) /\
  (forall rule rule' : AliasRule,
     rule_error "aaaaaa" rule = rule_error "aaaaaa" rule' -> rule = rule') /\
  (In "aaaaaa"%string (short_codes (repo crowded_world)) ->
   exists rule : AliasRule,
     first_violation (repo crowded_world) "aaaaaa" = Some rule /\
     CreateLinkWithCustomAlias "https://example.net" "aaaaaa" crowded_world =
       (Err (rule_error "aaaaaa" rule), crowded_world) /\
     (rule = NotInUse <->
      forallb (rule_holds (repo crowded_world) "aaaaaa")
        [NonEmpty; LengthWithin3And20; LettersDigitsHyphen; NotReserved] = true)).
Proof.
  exact (CreateLinkWithCustomAlias_first_violation crowded_world
           "https://example.net" "aaaaaa" eq_refl).
Defined.

(** C6, as stated, fails for an alias that duplicates a code of the table
    and is a reserved word.  [CreateLink] draws from the whole charset and
    can give out [health]; a later request for the alias [health] is
    refused by the fourth rule, with the error of the reserved words, not
    with "already used". *)
Lemma taken_alias_reported_as_reserved :
  (CreateLink "https://example.com" (mkWorld spells_health 0 empty_db None [])).1 =
    Ok (mkLink 1 "health" "https://example.com" 1000 true None false) /\
  In "health"%string (short_codes (repo health_world)) /\
  CreateLinkWithCustomAlias "https://example.org" "health" health_world =
    (Err (alias_reserved "health"), health_world) /\
  alias_reserved "health" <> alias_taken "health".
Proof.
  split; [vm_compute; reflexivity|].
  split; [vm_compute; left; reflexivity|].
  split; [vm_compute; reflexivity|].
  vm_compute. intros Heq. discriminate Heq.
Qed.

(** *** Conflicts at insertion *)

Lemma Create_conflict (link : Link) (db : DB) :
  fault db = None -> In (ShortCode link) (short_codes db) ->
  Create link db = ((link, Some unique_violation), db).
Proof.
  intros Hfault Hin. unfold Create. rewrite Hfault, existsb_short_code.
  fold (short_codes db). apply existsb_eqb_In in Hin. by rewrite Hin.
Qed.

(** C7, as amended: when the insert of an allocation fails on the unique
    index (another request stored the same code between the existence
    check and the insert), the failure is handed back wrapped in the
    error of the insert, in both modes; the random mode draws no new
    candidate and the custom mode does not say "already used".  The world
    is left as the other requests made it. *)
Theorem insert_conflict_is_propagated {B : Type} (others : State (World DB) B)
    (w w1 w2 : World DB) (code longURL : string) (b : B) :
  others w1 = (b, w2) ->
  fault (repo w2) = None ->
  In code (short_codes (repo w2)) ->
  (pickShortCode w = (Ok code, w1) ->
   interleaved pickShortCode others (fun c => persistLink c longURL) w =
     (Err (ErrWrap "error creating link in database" unique_violation), w2)) /\
  (checkCustomAlias code w = (Ok tt, w1) ->
   interleaved (checkCustomAlias code) others
     (fun _ => persistCustomAlias longURL code) w =
     (Err (ErrWrap "erreur lors de la création du lien avec alias personnalisé"
             unique_violation), w2)).
Proof.
  intros Hothers Hfault Hin. split; intros Hbefore.
  - unfold interleaved, mbind, State_bind. rewrite Hbefore, Hothers.
    unfold persistLink, mbind, State_bind, on_repo. simpl.
    rewrite Create_conflict by done. simpl. by destruct w2.
  - unfold interleaved, mbind, State_bind. rewrite Hbefore, Hothers.
    unfold persistCustomAlias, mbind, State_bind, on_repo. simpl.
    rewrite Create_conflict by done. simpl. by destruct w2.
Qed.


Lemma insert_conflict_is_propagated_witness :
  racing_random =
    (Err (ErrWrap "error creating link in database" unique_violation),
     (rival "aaaaaa" (after_draws 6 fresh_world)).2) /\
  racing_custom =
    (Err (ErrWrap "erreur lors de la création du lien avec alias personnalisé"
            unique_violation),
     (rival "promo" fresh_world).2).
Proof.
  split.
  - refine (proj1 (insert_conflict_is_propagated (rival "aaaaaa")
                     fresh_world (after_draws 6 fresh_world)
                     (rival "aaaaaa" (after_draws 6 fresh_world)).2
                     "aaaaaa" "https://example.com"
                     (rival "aaaaaa" (after_draws 6 fresh_world)).1 _ _ _) _).
    + vm_compute. reflexivity.
    + reflexivity.
    + vm_compute. left. reflexivity.
    + vm_compute. reflexivity.
  - refine (proj2 (insert_conflict_is_propagated (rival "promo")
                     fresh_world fresh_world (rival "promo" fresh_world).2
                     "promo" "https://example.com"
                     (rival "promo" fresh_world).1 _ _ _) _).
    + vm_compute. reflexivity.
    + reflexivity.
    + vm_compute. left. reflexivity.
    + vm_compute. reflexivity.
Defined.

(** C7, as stated, fails in both modes: in a race for the alias [promo]
    the loser gets the wrapped error of the insert and not the error
    "already used"; in a race for the code [aaaaaa] the random allocation
    gives up with the wrapped error after its one candidate (six draws),
    without a second attempt. *)
Lemma insert_conflict_is_not_a_collision :
  racing_custom.1 =
    Err (ErrWrap "erreur lors de la création du lien avec alias personnalisé"
           unique_violation) /\
  racing_custom.1 <> Err (alias_taken "promo") /\
  racing_random.1 = Err (ErrWrap "error creating link in database" unique_violation) /\
  drawn racing_random.2 = 6%nat /\
  short_codes (repo racing_random.2) = ["aaaaaa"%string].
Proof.
  split; [vm_compute; reflexivity|].
  split; [vm_compute; discriminate|].
  split; [vm_compute; reflexivity|].
  split; vm_compute; reflexivity.
Qed.

End Allocator.

Section Redirect.
Import Go Errors Models Process Http Middleware Api.
Context {R : Type} `{!Repository.LinkRepository R}.

(** [RedirectHandler] on an expired link. *)
Lemma RedirectHandler_expired (w : World R) (req : Request) (link : Link) (r' : R)
    (expiresAt now_expiry now_click : Time) :
  Repository.GetLinkByShortCode (param_shortCode req) (repo w) = (inl link, r') ->
  ExpiresAt link = Some expiresAt ->
  expiresAt < now_expiry ->
  RedirectHandler req now_expiry now_click w =
    (gone expiresAt,
     mkWorld (entropy w) (drawn w) r' (ClickEventsChannel w)
       (logs w ++ [LogExpired (param_shortCode req) (Some expiresAt)])).
Proof.
  intros Hfound Hexp Hpast.
  unfold RedirectHandler, Services.GetLinkByShortCode, mbind, State_bind, on_repo.
  rewrite Hfound. unfold IsExpired. rewrite Hexp. unfold After.
  assert ((expiresAt <? now_expiry) = true) as -> by (by apply Z.ltb_lt).
  reflexivity.
Qed.

(** The three ways through the route. *)
Lemma redirect_route_unguarded (req : Request) (t1 t2 t3 now_expiry now_click : Time)
    (rl : IPRateLimiter) (w : World R) :
  redirect_route false req t1 t2 t3 now_expiry now_click (rl, w) =
    ((RedirectHandler req now_expiry now_click w).1,
     (rl, (RedirectHandler req now_expiry now_click w).2)).
Proof.
  unfold redirect_route, on_chain. simpl.
  by destruct (RedirectHandler req now_expiry now_click w).
Qed.

Lemma redirect_route_rejected (req : Request) (t1 t2 t3 now_expiry now_click : Time)
    (rl : IPRateLimiter) (w : World R) :
  (isAllowed (ClientIP req) t1 rl).1 = false ->
  status (redirect_route true req t1 t2 t3 now_expiry now_click (rl, w)).1 =
    StatusTooManyRequests /\
  (redirect_route true req t1 t2 t3 now_expiry now_click (rl, w)).2 =
    ((isAllowed (ClientIP req) t1 rl).2, w).
Proof.
  intros Hrej. unfold redirect_route, RateLimitMiddleware, mbind, State_bind, on_limiter.
  simpl. destruct (isAllowed (ClientIP req) t1 rl) as [allowed rl1]. simpl in *. subst allowed.
  simpl. pose proof (getResetTime_reads (ClientIP req) t2 rl1) as Hread.
  destruct (getResetTime (ClientIP req) t2 rl1) as [reset rl2]. simpl in *. by subst.
Qed.

(** A pass the limiter rejects never runs the handler: any handler in
    the place of [RedirectHandler] gives the same answer and state. *)
Lemma redirect_route_rejected_any (req : Request) (t1 t2 t3 now_expiry now_click : Time)
    (rl : IPRateLimiter) (w : World R) (next : State (World R) Response) :
  (isAllowed (ClientIP req) t1 rl).1 = false ->
  RateLimitMiddleware (ClientIP req) t1 t2 t3 next (rl, w) =
    redirect_route true req t1 t2 t3 now_expiry now_click (rl, w).
Proof.
  intros Hrej. unfold redirect_route, RateLimitMiddleware, mbind, State_bind, on_limiter.
  simpl. destruct (isAllowed (ClientIP req) t1 rl) as [allowed rl1]. simpl in *.
  by subst allowed.
Qed.

Lemma redirect_route_allowed (req : Request) (t1 t2 t3 now_expiry now_click : Time)
    (rl : IPRateLimiter) (w : World R) :
  (isAllowed (ClientIP req) t1 rl).1 = true ->
  status (redirect_route true req t1 t2 t3 now_expiry now_click (rl, w)).1 =
    status (RedirectHandler req now_expiry now_click w).1 /\
  payload (redirect_route true req t1 t2 t3 now_expiry now_click (rl, w)).1 =
    payload (RedirectHandler req now_expiry now_click w).1 /\
  (redirect_route true req t1 t2 t3 now_expiry now_click (rl, w)).2 =
    ((isAllowed (ClientIP req) t1 rl).2, (RedirectHandler req now_expiry now_click w).2).
Proof.
  intros Hok. unfold redirect_route, RateLimitMiddleware, mbind, State_bind, on_limiter,
    on_chain.
  simpl. destruct (isAllowed (ClientIP req) t1 rl) as [allowed rl1]. simpl in *. subst allowed.
  simpl. pose proof (getRemainingRequests_reads (ClientIP req) t2 rl1) as Hread2.
  destruct (getRemainingRequests (ClientIP req) t2 rl1) as [remaining rl2]. simpl in *. subst rl2.
  pose proof (getResetTime_reads (ClientIP req) t3 rl1) as Hread3.
  destruct (getResetTime (ClientIP req) t3 rl1) as [reset rl3]. simpl in *. subst rl3.
  by destruct (RedirectHandler req now_expiry now_click w).
Qed.

(** C3, as amended: when the repository resolves the code to a link whose
    [ExpiresAt] is set and strictly before the clock reading, the handler
    answers 410 with the expiry instant under [expired_at] and sends no
    click event, whatever the state of the channel.  On the route as
    [SetupRoutes] registers it (no limiter in front) this is the answer of
    every request; with a limiter in front it is the answer of every
    request the limiter lets through, while a request the limiter rejects
    is answered 429 before the link is looked up: the world, and so the
    repository, the log and the channel, is as it was, and the answer and
    the state are those any handler in the place of [RedirectHandler]
    would give.  No event is sent in any case. *)
Theorem expired_link_is_gone (w : World R) (req : Request) (link : Link) (r' : R)
    (expiresAt now_expiry now_click : Time) :
  Repository.GetLinkByShortCode (param_shortCode req) (repo w) = (inl link, r') ->
  ExpiresAt link = Some expiresAt ->
  expiresAt < now_expiry ->
  (RedirectHandler req now_expiry now_click w).1 = gone expiresAt /\
  ClickEventsChannel (RedirectHandler req now_expiry now_click w).2 =
    ClickEventsChannel w /\
  forall (guarded : bool) (rl : IPRateLimiter) (t1 t2 t3 : Time),
    let out := redirect_route guarded req t1 t2 t3 now_expiry now_click (rl, w) in
    ClickEventsChannel out.2.2 = ClickEventsChannel w /\
    if guarded && negb (isAllowed (ClientIP req) t1 rl).1
    then status out.1 = StatusTooManyRequests /\
         out.2.2 = w /\
         forall next : State (World R) Response,
           RateLimitMiddleware (ClientIP req) t1 t2 t3 next (rl, w) = out
    else status out.1 = StatusGone /\ payload out.1 = payload (gone expiresAt).
Proof.
  intros Hfound Hexp Hpast.
  pose proof (RedirectHandler_expired w req link r' expiresAt now_expiry now_click
                Hfound Hexp Hpast) as Hgone.
  split; [by rewrite Hgone|]. split; [by rewrite Hgone|].
  intros [|] rl t1 t2 t3 out; subst out.
  - destruct (isAllowed (ClientIP req) t1 rl).1 eqn:Hallowed; cbn [andb negb].
    + destruct (redirect_route_allowed req t1 t2 t3 now_expiry now_click rl w Hallowed)
        as (Hst & Hpl & ->).
      rewrite Hst, Hpl, Hgone. done.
    + destruct (redirect_route_rejected req t1 t2 t3 now_expiry now_click rl w Hallowed)
        as (Hst & Hworld).
      split; [by rewrite Hworld|]. split; [exact Hst|]. split; [by rewrite Hworld|].
      intros next.
      exact (redirect_route_rejected_any req t1 t2 t3 now_expiry now_click rl w next
               Hallowed).
  - rewrite redirect_route_unguarded, Hgone. done.
Qed.

(** C4: when a redirect reaches the send on a channel whose buffer is
    full, the send is not taken ([trySend] yields [false] at once and leaves
    the world as it is: the event is dropped), the one thing the handler
    does about it is the warning it logs, and the answer is the 302
    redirect to the link's [LongURL]; so it is on the route for every
    request the rate limiter lets through. *)
Theorem full_channel_still_redirects (w : World R) (req : Request) (link : Link)
    (r' : R) (ch : Chan) (now_expiry now_click : Time) :
  Repository.GetLinkByShortCode (param_shortCode req) (repo w) = (inl link, r') ->
  IsExpired link now_expiry = false ->
  ClickEventsChannel w = Some ch ->
  (cap ch <= length (buf ch))%nat ->
  trySend (mkClickEvent (ID link) now_click (header_UserAgent req) (ClientIP req)) w =
    (false, w) /\
  RedirectHandler req now_expiry now_click w =
    (mkResponse StatusFound [] (Redirect (LongURL link)),
     mkWorld (entropy w) (drawn w) r' (Some ch)
       (logs w ++ [LogChannelFull (param_shortCode req)])) /\
  forall (guarded : bool) (rl : IPRateLimiter) (t1 t2 t3 : Time),
    guarded && negb (isAllowed (ClientIP req) t1 rl).1 = false ->
    let out := redirect_route guarded req t1 t2 t3 now_expiry now_click (rl, w) in
    status out.1 = StatusFound /\
    payload out.1 = Redirect (LongURL link) /\
    ClickEventsChannel out.2.2 = Some ch.
Proof.
  intros Hfound Hlive Hch Hfull.
  assert (forall ev : ClickEvent, trySend ev w = (false, w)) as Hsend.
  { intros ev. unfold trySend, mbind, State_bind, get. rewrite Hch.
    assert ((length (buf ch) <? cap ch)%nat = false) as ->
      by (apply Nat.ltb_ge; lia).
    reflexivity. }
  assert (RedirectHandler req now_expiry now_click w =
    (mkResponse StatusFound [] (Redirect (LongURL link)),
     mkWorld (entropy w) (drawn w) r' (Some ch)
       (logs w ++ [LogChannelFull (param_shortCode req)]))) as Hredirect.
  { unfold RedirectHandler, Services.GetLinkByShortCode. unfold mbind, State_bind at 1.
    unfold on_repo. rewrite Hfound, Hlive.
    unfold trySend, mbind, State_bind, get. simpl. rewrite Hch.
    assert ((length (buf ch) <? cap ch)%nat = false) as ->
      by (apply Nat.ltb_ge; lia).
    reflexivity. }
  split; [apply Hsend|]. split; [exact Hredirect|].
  intros [|] rl t1 t2 t3 Hpass out; subst out.
  - destruct (isAllowed (ClientIP req) t1 rl).1 eqn:Hallowed; [|discriminate Hpass].
    destruct (redirect_route_allowed req t1 t2 t3 now_expiry now_click rl w Hallowed)
      as (Hst & Hpl & ->).
    rewrite Hst, Hpl, Hredirect. done.
  - rewrite redirect_route_unguarded, Hredirect. done.
Qed.

End Redirect.

Section RedirectSamples.
Import Go Errors Models Process Http Middleware Api.
Import Repository (DB, GormLinkRepository).

Lemma expired_link_is_gone_witness :
  (RedirectHandler sample_request 200 201 expired_world).1 = gone 100 /\
  ClickEventsChannel (RedirectHandler sample_request 200 201 expired_world).2 =
    ClickEventsChannel expired_world /\
  forall (guarded : bool) (rl : IPRateLimiter) (t1 t2 t3 : Time),
    let out := redirect_route guarded sample_request t1 t2 t3 200 201 (rl, expired_world) in
    ClickEventsChannel out.2.2 = ClickEventsChannel expired_world /\
    if guarded && negb (isAllowed (ClientIP sample_request) t1 rl).1
    then status out.1 = StatusTooManyRequests /\
         out.2.2 = expired_world /\
         forall next : State (World DB) Response,
           RateLimitMiddleware (ClientIP sample_request) t1 t2 t3 next (rl, expired_world) =
             out
    else status out.1 = StatusGone /\ payload out.1 = payload (gone 100).
Proof.
  apply (expired_link_is_gone expired_world sample_request expired_link
           (repo expired_world) 100 200 201).
  - reflexivity.
  - reflexivity.
  - simpl. lia.
Defined.

(** C3, as stated, fails for a request the rate limiter rejects.  The
    link expired at instant 100 and every clock reading of the attempt is
    later (the limiter reads 150, 151 and 152; the handler would read 200
    and 201); the client has used up its quota inside the window that is
    still open, and its request for the expired link is answered 429, not
    410.  The handler alone answers 410 at these readings. *)
Lemma expired_link_behind_spent_quota :
  Repository.GetLinkByShortCode (param_shortCode sample_request) (repo expired_world) =
    (inl expired_link, repo expired_world) /\
  ExpiresAt expired_link = Some 100 /\
  Forall (fun now => 100 < now /\ IsExpired expired_link now = true)
    [150; 151; 152; 200; 201] /\
  (RedirectHandler sample_request 200 201 expired_world).1 = gone 100 /\
  status (redirect_route true sample_request 150 151 152 200 201
            (spent_quota, expired_world)).1 = StatusTooManyRequests /\
  status (redirect_route true sample_request 150 151 152 200 201
            (spent_quota, expired_world)).1 <> StatusGone.
Proof.
  split; [reflexivity|]. split; [reflexivity|].
  split; [repeat constructor; lia|].
  split; [reflexivity|].
  assert ((isAllowed (ClientIP sample_request) 150 spent_quota).1 = false) as Hrej.
  { change (ClientIP sample_request) with client.
    rewrite (isAllowed_full client 150 spent_quota _ spent_quota_entry); [done|done|].
    unfold spent_quota.
    rewrite (isAllowed_unknown client 0 (NewIPRateLimiter 1 1)) by apply lookup_empty.
    simpl. lia. }
  destruct (redirect_route_rejected sample_request 150 151 152 200 201 spent_quota
              expired_world Hrej) as [-> _].
  split; [done|]. unfold StatusTooManyRequests, StatusGone. lia.
Qed.

Lemma full_channel_still_redirects_witness :
  trySend (mkClickEvent (ID lasting_link) 201 (header_UserAgent sample_request)
             (ClientIP sample_request)) saturated_world = (false, saturated_world) /\
  RedirectHandler sample_request 200 201 saturated_world =
    (mkResponse StatusFound [] (Redirect (LongURL lasting_link)),
     mkWorld (entropy saturated_world) (drawn saturated_world) (repo saturated_world)
       (Some {| buf := [mkClickEvent 1 900 "curl/8.5.0" client]; cap := 1 |})
       (logs saturated_world ++ [LogChannelFull (param_shortCode sample_request)])) /\
  forall (guarded : bool) (rl : IPRateLimiter) (t1 t2 t3 : Time),
    guarded && negb (isAllowed (ClientIP sample_request) t1 rl).1 = false ->
    let out := redirect_route guarded sample_request t1 t2 t3 200 201 (rl, saturated_world) in
    status out.1 = StatusFound /\
    payload out.1 = Redirect (LongURL lasting_link) /\
    ClickEventsChannel out.2.2 =
      Some {| buf := [mkClickEvent 1 900 "curl/8.5.0" client]; cap := 1 |}.
Proof.
  apply (full_channel_still_redirects saturated_world sample_request lasting_link
           (repo saturated_world)
           {| buf := [mkClickEvent 1 900 "curl/8.5.0" client]; cap := 1 |} 200 201).
  - reflexivity.
  - reflexivity.
  - reflexivity.
  - simpl. lia.
Defined.

End RedirectSamples.

(** * Further properties of the rate limiter *)

Section LimiterRuns.
Import Go Middleware Cleanup.

(** What [isAllowed] does to the entry of its IP, in one statement: the
    map gets one entry [e] written at [ip], accessed at [now]; either the
    request opened a window, or it was judged inside the window of the
    entry found. *)
Lemma isAllowed_shape (ip : string) (now : Time) (rl : IPRateLimiter) :
  exists e : IPLimitInfo,
    (isAllowed ip now rl).2 =
      mkLimiter (<[ip := e]> (ips rl)) (maxRequest rl) (window rl) /\
    lastAccess e = now /\
    ((opens_window rl ip now /\ (isAllowed ip now rl).1 = true /\
      count e = 1 /\ resetTime e = Add now (window rl)) \/
     (exists info : IPLimitInfo,
        ips rl !! ip = Some info /\ After now (resetTime info) = false /\
        resetTime e = resetTime info /\
        ((count info < maxRequest rl /\ (isAllowed ip now rl).1 = true /\
          count e = int_wrap (count info + 1)) \/
         (maxRequest rl <= count info /\ (isAllowed ip now rl).1 = false /\
          count e = count info)))).
Proof.
  destruct (ips rl !! ip) as [info|] eqn:E.
  - destruct (After now (resetTime info)) eqn:Hafter.
    + rewrite (isAllowed_expired _ _ _ _ E Hafter). eexists. split; [done|].
      split; [done|]. left. unfold opens_window. rewrite E. done.
    + destruct (Z_lt_le_dec (count info) (maxRequest rl)) as [Hroom|Hfull].
      * rewrite (isAllowed_room _ _ _ _ E Hafter Hroom). eexists. split; [done|].
        split; [done|]. right. exists info. simpl. tauto.
      * rewrite (isAllowed_full _ _ _ _ E Hafter Hfull). eexists. split; [done|].
        split; [done|]. right. exists info. simpl. tauto.
  - rewrite (isAllowed_unknown _ _ _ E). eexists. split; [done|].
    split; [done|]. left. unfold opens_window. rewrite E. done.
Qed.

Lemma cleanup_lookup (now : Time) (rl : IPRateLimiter) (ip : string) (info : IPLimitInfo) :
  ips (cleanupOldEntries now rl).2 !! ip = Some info <->
  ips rl !! ip = Some info /\
  (Sub now (lastAccess info) >? int_wrap (window rl * 2)) = false.
Proof. unfold cleanupOldEntries, modify. simpl. apply map_lookup_filter_Some. Qed.

Lemma cleanup_config (now : Time) (rl : IPRateLimiter) :
  maxRequest (cleanupOldEntries now rl).2 = maxRequest rl /\
  window (cleanupOldEntries now rl).2 = window rl.
Proof. done. Qed.

Lemma play_request (ip : string) (now : Time) (rest : list Step) (rl : IPRateLimiter) :
  play (Request ip now :: rest) rl =
    ((isAllowed ip now rl).1 :: (play rest (isAllowed ip now rl).2).1,
     (play rest (isAllowed ip now rl).2).2).
Proof.
  simpl. unfold mbind, State_bind, mret, State_ret.
  destruct (isAllowed ip now rl) as [b rl1]. simpl.
  by destruct (play rest rl1).
Qed.

Lemma play_tick (now : Time) (rest : list Step) (rl : IPRateLimiter) :
  play (Tick now :: rest) rl = play rest (cleanupOldEntries now rl).2.
Proof. reflexivity. Qed.

Lemma isAllowed_counts_bounded (ip : string) (now : Time) (rl : IPRateLimiter) :
  is_int (maxRequest rl) -> counts_bounded rl ->
  counts_bounded (isAllowed ip now rl).2.
Proof.
  intros Hint Hinv ip' info'.
  destruct (isAllowed_shape ip now rl) as (e & -> & _ & Hcase). simpl.
  destruct (decide (ip = ip')) as [<-|Hne].
  - rewrite lookup_insert_eq. intros [= <-].
    destruct Hcase as [(_ & _ & -> & _)|(info & Hinfo & _ & _ & Hcount)]; [lia|].
    specialize (Hinv ip info Hinfo).
    destruct Hcount as [(Hroom & _ & ->)|(_ & _ & ->)]; [|done].
    rewrite int_wrap_id; [lia|]. unfold is_int, int_min, int_max in *. lia.
  - rewrite lookup_insert_ne by done. apply Hinv.
Qed.

(** X1: along every run of requests and sweeps, each stored counter stays
    between 1 and the quota (between 1 and 1 when the quota is below 1):
    [count++] is never applied to a counter that has reached the quota,
    so it cannot overflow, and no request is ever counted beyond it. *)
Theorem play_counts_bounded (steps : list Step) (rl : IPRateLimiter) :
  is_int (maxRequest rl) ->
  counts_bounded rl ->
  counts_bounded (play steps rl).2.
Proof.
  revert rl. induction steps as [|[ip now|now] rest IH]; intros rl Hint Hinv.
  - done.
  - rewrite play_request. simpl. apply IH.
    + by destruct (isAllowed_config ip now rl) as [-> _].
    + by apply isAllowed_counts_bounded.
  - rewrite play_tick. apply IH; [done|].
    intros ip info Hlook. apply cleanup_lookup in Hlook as [Hlook _].
    exact (Hinv ip info Hlook).
Qed.

Lemma play_counts_bounded_witness :
  counts_bounded (play sample_run (NewIPRateLimiter 2 1)).2.
Proof.
  apply (play_counts_bounded sample_run (NewIPRateLimiter 2 1)).
  - unfold is_int, int_min, int_max. simpl. lia.
  - intros ip info Hlook. simpl in Hlook. by rewrite lookup_empty in Hlook.
Defined.

Lemma isAllowed_timely (ip : string) (t now : Time) (rl : IPRateLimiter) :
  timely t rl -> t <= now -> timely now (isAllowed ip now rl).2.
Proof.
  intros Hinv Hle ip' info'.
  destruct (isAllowed_shape ip now rl) as (e & -> & Hlast & Hcase). simpl.
  destruct (decide (ip = ip')) as [<-|Hne].
  - rewrite lookup_insert_eq. intros [= <-]. rewrite Hlast. split; [lia|].
    destruct Hcase as [(_ & _ & _ & ->)|(info & Hinfo & _ & -> & _)]; [done|].
    destruct (Hinv ip info Hinfo) as [Hpast Hreset]. unfold Add in *. lia.
  - rewrite lookup_insert_ne by done. intros Hlook.
    destruct (Hinv ip' info' Hlook). split; [lia|done].
Qed.

Lemma cleanup_timely (t now : Time) (rl : IPRateLimiter) :
  timely t rl -> t <= now -> timely now (cleanupOldEntries now rl).2.
Proof.
  intros Hinv Hle ip info Hlook. apply cleanup_lookup in Hlook as [Hlook _].
  destruct (Hinv ip info Hlook). split; [lia|done].
Qed.

(** X2: when the clock does not run backwards, every state a run of
    requests and sweeps reaches keeps each entry in step with its last
    access: the access is not in the future, and the window of the entry
    ends at most one window length after it. *)
Theorem play_timely (steps : list Step) (t : Time) (rl : IPRateLimiter) :
  timely t rl ->
  chronological t steps ->
  timely (end_time t steps) (play steps rl).2.
Proof.
  revert t rl. induction steps as [|[ip now|now] rest IH]; intros t rl Hinv Hchron.
  - done.
  - destruct Hchron as [Hle Hrest]. rewrite play_request. simpl in *.
    apply IH; [|done]. by apply isAllowed_timely with t.
  - destruct Hchron as [Hle Hrest]. rewrite play_tick. simpl in *.
    apply IH; [|done]. by apply cleanup_timely with t.
Qed.

Lemma play_timely_witness :
  timely (end_time 0 sample_run) (play sample_run (NewIPRateLimiter 2 1)).2.
Proof.
  apply (play_timely sample_run 0 (NewIPRateLimiter 2 1)).
  - intros ip info Hlook. simpl in Hlook. by rewrite lookup_empty in Hlook.
  - simpl. lia.
Defined.

Lemma Sub_exceeds (t u : Time) (d : Duration) :
  0 <= d -> (Sub t u >? d) = true -> d < t - u.
Proof.
  intros Hd Hgt. apply Z.gtb_lt in Hgt. unfold Sub, int_min, int_max in Hgt. lia.
Qed.

(** A request is judged the same, and leaves the same entry, on two
    limiters that agree on its IP, or of which one has forgotten an entry
    whose window is over. *)
Lemma isAllowed_behind (ip : string) (now : Time) (s' s : IPRateLimiter) :
  maxRequest s' = maxRequest s -> window s' = window s ->
  (ips s' !! ip = ips s !! ip \/
   (ips s' !! ip = None /\
    exists info : IPLimitInfo, ips s !! ip = Some info /\ resetTime info < now)) ->
  (isAllowed ip now s').1 = (isAllowed ip now s).1 /\
  ips (isAllowed ip now s').2 !! ip = ips (isAllowed ip now s).2 !! ip.
Proof.
  intros Hm Hw [Hsame|(Hnone & info & Hinfo & Hover)].
  - destruct (ips s !! ip) as [info|] eqn:E.
    + destruct (After now (resetTime info)) eqn:Hafter.
      * rewrite (isAllowed_expired _ _ _ _ Hsame Hafter),
          (isAllowed_expired _ _ _ _ E Hafter). simpl.
        by rewrite !lookup_insert_eq, Hw.
      * destruct (Z_lt_le_dec (count info) (maxRequest s)) as [Hroom|Hfull].
        -- rewrite (isAllowed_room ip now s' info), (isAllowed_room ip now s info);
             try done; [|by rewrite Hm]. simpl. by rewrite !lookup_insert_eq.
        -- rewrite (isAllowed_full ip now s' info), (isAllowed_full ip now s info);
             try done; [|by rewrite Hm]. simpl. by rewrite !lookup_insert_eq.
    + rewrite (isAllowed_unknown _ _ _ Hsame), (isAllowed_unknown _ _ _ E). simpl.
      by rewrite !lookup_insert_eq, Hw.
  - assert (After now (resetTime info) = true) as Hafter
      by (unfold After; by apply Z.ltb_lt).
    rewrite (isAllowed_unknown _ _ _ Hnone), (isAllowed_expired _ _ _ _ Hinfo Hafter).
    simpl. by rewrite !lookup_insert_eq, Hw.
Qed.

Lemma play_behind (steps : list Step) :
  forall (t : Time) (s' s : IPRateLimiter),
    0 <= window s -> is_int (window s * 2) ->
    maxRequest s' = maxRequest s -> window s' = window s ->
    timely t s ->
    (forall ip : string,
       ips s' !! ip = ips s !! ip \/
       (ips s' !! ip = None /\
        exists info : IPLimitInfo, ips s !! ip = Some info /\ resetTime info < t)) ->
    chronological t steps ->
    (play steps s').1 = (serve (requests steps) s).1.
Proof.
  induction steps as [|[ip now|now] rest IH];
    intros t s' s Hw0 Hw2 Hm Hw Htimely Hrel Hchron.
  - done.
  - destruct Hchron as [Hle Hrest]. simpl in Hle, Hrest.
    rewrite play_request. cbn [requests]. rewrite serve_cons. cbn [fst].
    assert (ips s' !! ip = ips s !! ip \/
            (ips s' !! ip = None /\
             exists info : IPLimitInfo, ips s !! ip = Some info /\ resetTime info < now))
      as Hip.
    { destruct (Hrel ip) as [?|(? & info & ? & ?)]; [by left|].
      right. split; [done|]. exists info. split; [done|lia]. }
    destruct (isAllowed_behind ip now s' s Hm Hw Hip) as [Hverdict Hentry].
    rewrite Hverdict. f_equal.
    destruct (isAllowed_config ip now s') as [Hm' Hw'].
    destruct (isAllowed_config ip now s) as [Hm1 Hw1].
    apply (IH now); try done.
    + by rewrite Hw1.
    + by rewrite Hw1.
    + by rewrite Hm', Hm1.
    + by rewrite Hw', Hw1.
    + by apply isAllowed_timely with t.
    + intros ip'. destruct (decide (ip = ip')) as [<-|Hne]; [by left|].
      rewrite !isAllowed_frame by done.
      destruct (Hrel ip') as [?|(? & info & ? & ?)]; [by left|].
      right. split; [done|]. exists info. split; [done|lia].
  - destruct Hchron as [Hle Hrest]. simpl in Hle, Hrest.
    rewrite play_tick. cbn [requests].
    assert (forall ip : string, ips s' !! ip = None ->
              ips (cleanupOldEntries now s').2 !! ip = None) as Hgone.
    { intros ip Hnone.
      destruct (ips (cleanupOldEntries now s').2 !! ip) as [x|] eqn:F; [|done].
      apply cleanup_lookup in F as [F _]. congruence. }
    apply (IH now); try done.
    + intros ip info Hlook. destruct (Htimely ip info Hlook). split; [lia|done].
    + intros ip. destruct (Hrel ip) as [Hsame|(Hnone & info & Hinfo & Hover)].
      * destruct (ips s !! ip) as [info|] eqn:E; [|left; by apply Hgone].
        destruct (Sub now (lastAccess info) >? int_wrap (window s' * 2)) eqn:Hstale.
        -- right. split.
           ++ destruct (ips (cleanupOldEntries now s').2 !! ip) as [x|] eqn:F; [|done].
              apply cleanup_lookup in F as [F1 F2]. rewrite Hsame in F1.
              injection F1 as <-. congruence.
           ++ exists info. split; [done|].
              rewrite Hw, int_wrap_id in Hstale by done.
              apply Sub_exceeds in Hstale; [|lia].
              destruct (Htimely ip info E) as [_ Hreset]. unfold Add in Hreset. lia.
        -- left. apply cleanup_lookup. by rewrite Hsame.
      * right. split; [by apply Hgone|]. exists info. split; [done|lia].
Qed.

(** X3: sweeps cannot be observed through the verdicts.  When the clock
    does not run backwards and the window length is not negative (and
    twice the length is a [Duration]), a run with ticks of the sweep at
    any places gives every request the verdict it gets in the same run
    without the ticks: an entry that a sweep deletes had its window over
    already, so its IP would have started a new window anyway. *)
Theorem sweeps_are_invisible (steps : list Step) (t : Time) (rl : IPRateLimiter) :
  0 <= window rl ->
  is_int (window rl * 2) ->
  timely t rl ->
  chronological t steps ->
  (play steps rl).1 = (serve (requests steps) rl).1.
Proof.
  intros Hw0 Hw2 Htimely Hchron.
  apply (play_behind steps t rl rl); try done. intros ip. by left.
Qed.

Lemma sweeps_are_invisible_witness :
  (play sample_run (NewIPRateLimiter 2 1)).1 =
    (serve (requests sample_run) (NewIPRateLimiter 2 1)).1.
Proof.
  apply (sweeps_are_invisible sample_run 0 (NewIPRateLimiter 2 1)).
  - change (0 <= 60000000000). lia.
  - change (- 2 ^ 63 <= 60000000000 * 2 <= 2 ^ 63 - 1). lia.
  - intros ip info Hlook. simpl in Hlook. by rewrite lookup_empty in Hlook.
  - simpl. lia.
Defined.

(** X4: a sweep keeps exactly the entries whose last access lies at
    most two window lengths back, each as it was, and deletes the others;
    it adds nothing.  (Window length not negative, twice the length a
    [Duration]; the bounds of [Sub] play no part.) *)
Theorem cleanup_keeps_recent (now : Time) (rl : IPRateLimiter) (ip : string) :
  0 <= window rl ->
  is_int (window rl * 2) ->
  ips (cleanupOldEntries now rl).2 !! ip =
    match ips rl !! ip with
    | Some info =>
        if bool_decide (now - lastAccess info <= 2 * window rl) then Some info else None
    | None => None
    end.
Proof.
  intros Hw0 Hw2.
  destruct (ips (cleanupOldEntries now rl).2 !! ip) as [x|] eqn:F.
  - apply cleanup_lookup in F as [-> Hkept].
    rewrite int_wrap_id in Hkept by done.
    rewrite bool_decide_eq_true_2; [done|].
    destruct (Z.gtb_spec (Sub now (lastAccess x)) (window rl * 2)) as [|Hle]; [done|].
    unfold Sub, is_int, int_min, int_max in *. lia.
  - destruct (ips rl !! ip) as [info|] eqn:E; [|done].
    case_bool_decide as Hrecent; [|done].
    assert (ips (cleanupOldEntries now rl).2 !! ip = Some info) as Hkept; [|congruence].
    apply cleanup_lookup. split; [done|].
    rewrite int_wrap_id by done.
    destruct (Z.gtb_spec (Sub now (lastAccess info)) (window rl * 2)) as [Hgt|]; [|done].
    unfold Sub, is_int, int_min, int_max in *. lia.
Qed.

Lemma cleanup_keeps_recent_witness :
  ips (cleanupOldEntries 120000000001 spent_quota).2 !! client =
    match ips spent_quota !! client with
    | Some info =>
        if bool_decide (120000000001 - lastAccess info <= 2 * window spent_quota)
        then Some info else None
    | None => None
    end.
Proof.
  apply (cleanup_keeps_recent 120000000001 spent_quota client).
  - change (0 <= 60000000000). lia.
  - change (- 2 ^ 63 <= 60000000000 * 2 <= 2 ^ 63 - 1). lia.
Defined.

Lemma remaining_in_window (ip : string) (now : Time) (rl : IPRateLimiter)
    (info : IPLimitInfo) :
  ips rl !! ip = Some info -> After now (resetTime info) = false ->
  is_int (maxRequest rl - count info) ->
  (getRemainingRequests ip now rl).1 = Z.max 0 (maxRequest rl - count info).
Proof.
  intros Hinfo Hafter Hint.
  unfold getRemainingRequests, mbind, State_bind, get, mret, State_ret.
  rewrite Hinfo, Hafter, int_wrap_id by done.
  destruct (Z.ltb_spec (maxRequest rl - count info) 0); simpl; lia.
Qed.

(** X5: inside an open window the limiter and its read-out agree: a
    request of an IP that has an entry is allowed exactly when
    [getRemainingRequests], asked at the same instant just before, reports
    more than zero (for a quota and a counter whose difference is an
    [int]). *)
Theorem allowed_iff_remaining_positive (ip : string) (now : Time) (rl : IPRateLimiter)
    (info : IPLimitInfo) :
  ips rl !! ip = Some info ->
  After now (resetTime info) = false ->
  is_int (maxRequest rl - count info) ->
  (isAllowed ip now rl).1 = bool_decide (0 < (getRemainingRequests ip now rl).1).
Proof.
  intros Hinfo Hafter Hint.
  rewrite (remaining_in_window _ _ _ _ Hinfo Hafter Hint).
  destruct (Z_lt_le_dec (count info) (maxRequest rl)) as [Hroom|Hfull].
  - rewrite (isAllowed_room _ _ _ _ Hinfo Hafter Hroom). simpl.
    symmetry. apply bool_decide_eq_true. lia.
  - rewrite (isAllowed_full _ _ _ _ Hinfo Hafter Hfull). simpl.
    symmetry. apply bool_decide_eq_false. lia.
Qed.

Lemma allowed_iff_remaining_positive_witness :
  (isAllowed client 30 spent_quota).1 =
    bool_decide (0 < (getRemainingRequests client 30 spent_quota).1).
Proof.
  apply (allowed_iff_remaining_positive client 30 spent_quota (mkInfo 1 60000000000 0)).
  - reflexivity.
  - reflexivity.
  - change (- 2 ^ 63 <= 1 - 1 <= 2 ^ 63 - 1). lia.
Defined.

(** X6: the read-out counts down with the requests.  For an entry with a
    counter of at least 1 under a quota that is an [int] (as is their
    difference), and two instants of its open window: after a request that is allowed,
    [getRemainingRequests] reports one less than before it; after one that
    is rejected it reports 0, the number the 429 answer carries. *)
Theorem remaining_counts_down (ip : string) (now later : Time) (rl : IPRateLimiter)
    (info : IPLimitInfo) :
  ips rl !! ip = Some info ->
  After now (resetTime info) = false ->
  After later (resetTime info) = false ->
  is_int (maxRequest rl) ->
  1 <= count info ->
  is_int (maxRequest rl - count info) ->
  (getRemainingRequests ip later (isAllowed ip now rl).2).1 =
    if (isAllowed ip now rl).1
    then (getRemainingRequests ip now rl).1 - 1
    else 0.
Proof.
  intros Hinfo Hnow Hlater Hint Hcount Hdiff.
  destruct (Z_lt_le_dec (count info) (maxRequest rl)) as [Hroom|Hfull].
  - rewrite (remaining_in_window _ _ _ _ Hinfo Hnow)
      by (unfold is_int, int_min, int_max in *; lia).
    rewrite (isAllowed_room _ _ _ _ Hinfo Hnow Hroom). cbn [fst snd].
    rewrite int_wrap_id by (unfold is_int, int_min, int_max in *; lia).
    rewrite (remaining_in_window ip later _ (mkInfo (count info + 1) (resetTime info) now));
      simpl; try done; try (by rewrite lookup_insert_eq);
      unfold is_int, int_min, int_max in *; lia.
  - rewrite (isAllowed_full _ _ _ _ Hinfo Hnow Hfull). cbn [fst snd].
    rewrite (remaining_in_window ip later _ (mkInfo (count info) (resetTime info) now));
      simpl; try done; try (by rewrite lookup_insert_eq);
      unfold is_int, int_min, int_max in *; lia.
Qed.

Lemma remaining_counts_down_witness :
  (getRemainingRequests client 40 (isAllowed client 30 spent_quota).2).1 =
    if (isAllowed client 30 spent_quota).1
    then (getRemainingRequests client 30 spent_quota).1 - 1
    else 0.
Proof.
  apply (remaining_counts_down client 30 40 spent_quota (mkInfo 1 60000000000 0)).
  - reflexivity.
  - reflexivity.
  - reflexivity.
  - change (- 2 ^ 63 <= 1 <= 2 ^ 63 - 1). lia.
  - simpl. lia.
  - change (- 2 ^ 63 <= 1 - 1 <= 2 ^ 63 - 1). lia.
Defined.

End LimiterRuns.

Section MiddlewareChain.
Import Go Http Middleware Cleanup.
Context {W : Type}.

Lemma remaining_bounds (ip : string) (now : Time) (rl : IPRateLimiter) :
  counts_bounded rl -> is_int (maxRequest rl) -> 0 <= maxRequest rl ->
  0 <= (getRemainingRequests ip now rl).1 <= maxRequest rl.
Proof.
  intros Hinv Hint Hmax.
  unfold getRemainingRequests, mbind, State_bind, get, mret, State_ret.
  destruct (ips rl !! ip) as [info|] eqn:E; [|simpl; lia].
  destruct (After now (resetTime info)); [simpl; lia|].
  specialize (Hinv ip info E).
  rewrite int_wrap_id by (unfold is_int, int_min, int_max in *; lia).
  destruct (Z.ltb_spec (maxRequest rl - count info) 0); simpl; lia.
Qed.

(** X7: a request the limiter rejects never reaches the rest of the
    chain: the state of the chain is untouched whatever [next] is, the
    answer is 429 with the quota, a remaining count of 0 and a reset
    instant, and that instant is not before the instant of the rejection
    (clock not running backwards between the two readings, window length
    not negative). *)
Theorem RateLimitMiddleware_rejects (ip : string) (t1 t2 t3 : Time)
    (next : State W Response) (rl : IPRateLimiter) (w : W) :
  (isAllowed ip t1 rl).1 = false ->
  t1 <= t2 ->
  0 <= window rl ->
  exists reset : Time,
    t1 <= reset /\
    RateLimitMiddleware ip t1 t2 t3 next (rl, w) =
      (mkResponse StatusTooManyRequests
         [("X-RateLimit-Limit"%string, VInt (maxRequest rl));
          ("X-RateLimit-Remaining"%string, VString "0");
          ("X-RateLimit-Reset"%string, VTime reset);
          ("Retry-After"%string, VSeconds (reset - t3))]
         (JSON [("error"%string,
                   VString "Trop de requêtes. Veuillez réessayer plus tard.");
                ("retry_after"%string, VSeconds (reset - t3));
                ("reset_at"%string, VTime reset);
                ("max_requests"%string, VInt (maxRequest rl));
                ("window_minutes"%string, VMinutes (window rl))]),
       ((isAllowed ip t1 rl).2, w)).
Proof.
  intros Hrej Hle Hw0.
  destruct (isAllowed_shape ip t1 rl) as (e & Hstate & _ & Hcase).
  destruct Hcase as [(_ & Hyes & _)|(info & Hinfo & Hafter & Hreset & _)]; [congruence|].
  exists (getResetTime ip t2 (isAllowed ip t1 rl).2).1. split.
  - rewrite Hstate. unfold getResetTime, mbind, State_bind, get, mret, State_ret. simpl.
    rewrite lookup_insert_eq, Hreset.
    unfold After in *. apply Z.ltb_ge in Hafter.
    destruct (resetTime info <? t2); simpl; unfold Add; lia.
  - unfold RateLimitMiddleware, mbind, State_bind, on_limiter, get, mret, State_ret.
    simpl. destruct (isAllowed_config ip t1 rl) as [Hm Hw].
    destruct (isAllowed ip t1 rl) as [allowed rl1]. simpl in *. subst allowed. simpl.
    pose proof (getResetTime_reads ip t2 rl1) as Hread.
    destruct (getResetTime ip t2 rl1) as [reset rl2]. simpl in *. subst rl2.
    by rewrite Hm, Hw.
Qed.

(** X8: a request the limiter allows gets the answer of the rest of the
    chain with three headers put in front, and nothing else: the effects
    of the chain are its own, the limiter is left as [isAllowed] left it
    (the two read-outs change nothing).  In a limiter whose counters are
    bounded, under a quota that is not negative, the remaining count in
    the header lies between 0 and the quota. *)
Theorem RateLimitMiddleware_passes (ip : string) (t1 t2 t3 : Time)
    (next : State W Response) (rl : IPRateLimiter) (w : W) :
  (isAllowed ip t1 rl).1 = true ->
  counts_bounded rl ->
  is_int (maxRequest rl) ->
  0 <= maxRequest rl ->
  exists (remaining : Z) (reset : Time),
    0 <= remaining <= maxRequest rl /\
    RateLimitMiddleware ip t1 t2 t3 next (rl, w) =
      (with_headers
         [("X-RateLimit-Limit"%string, VInt (maxRequest rl));
          ("X-RateLimit-Remaining"%string, VInt remaining);
          ("X-RateLimit-Reset"%string, VTime reset)]
         (next w).1,
       ((isAllowed ip t1 rl).2, (next w).2)).
Proof.
  intros Hok Hinv Hint Hmax.
  exists (getRemainingRequests ip t2 (isAllowed ip t1 rl).2).1,
         (getResetTime ip t3 (isAllowed ip t1 rl).2).1.
  destruct (isAllowed_config ip t1 rl) as [Hm Hw].
  split.
  - rewrite <- Hm. apply remaining_bounds.
    + by apply isAllowed_counts_bounded.
    + by rewrite Hm.
    + by rewrite Hm.
  - unfold RateLimitMiddleware, mbind, State_bind, on_limiter, on_chain, get, mret,
      State_ret.
    simpl. destruct (isAllowed ip t1 rl) as [allowed rl1]. simpl in *. subst allowed.
    simpl. pose proof (getRemainingRequests_reads ip t2 rl1) as Hread2.
    destruct (getRemainingRequests ip t2 rl1) as [remaining rl2]. simpl in *. subst rl2.
    pose proof (getResetTime_reads ip t3 rl1) as Hread3.
    destruct (getResetTime ip t3 rl1) as [reset rl3]. simpl in *. subst rl3.
    destruct (next w) as [response w']. simpl. by rewrite Hm.
Qed.

End MiddlewareChain.

Section MiddlewareSamples.
Import Go Http Middleware Cleanup.

Lemma RateLimitMiddleware_rejects_witness :
  exists reset : Time,
    30 <= reset /\
    RateLimitMiddleware client 30 31 32 (mret (mkResponse 200 [] (JSON []))) (spent_quota, tt) =
      (mkResponse StatusTooManyRequests
         [("X-RateLimit-Limit"%string, VInt (maxRequest spent_quota));
          ("X-RateLimit-Remaining"%string, VString "0");
          ("X-RateLimit-Reset"%string, VTime reset);
          ("Retry-After"%string, VSeconds (reset - 32))]
         (JSON [("error"%string,
                   VString "Trop de requêtes. Veuillez réessayer plus tard.");
                ("retry_after"%string, VSeconds (reset - 32));
                ("reset_at"%string, VTime reset);
                ("max_requests"%string, VInt (maxRequest spent_quota));
                ("window_minutes"%string, VMinutes (window spent_quota))]),
       ((isAllowed client 30 spent_quota).2, tt)).
Proof.
  apply (RateLimitMiddleware_rejects (W := unit) client 30 31 32
           (mret (mkResponse 200 [] (JSON []))) spent_quota tt).
  - reflexivity.
  - lia.
  - change (0 <= 60000000000). lia.
Defined.

Lemma RateLimitMiddleware_passes_witness :
  exists (remaining : Z) (reset : Time),
    0 <= remaining <= maxRequest (NewIPRateLimiter 2 1) /\
    RateLimitMiddleware client 30 31 32 (mret (mkResponse 200 [] (JSON [])))
      (NewIPRateLimiter 2 1, tt) =
      (with_headers
         [("X-RateLimit-Limit"%string, VInt (maxRequest (NewIPRateLimiter 2 1)));
          ("X-RateLimit-Remaining"%string, VInt remaining);
          ("X-RateLimit-Reset"%string, VTime reset)]
         (mret (M := State unit) (mkResponse 200 [] (JSON [])) tt).1,
       ((isAllowed client 30 (NewIPRateLimiter 2 1)).2,
        (mret (M := State unit) (mkResponse 200 [] (JSON [])) tt).2)).
Proof.
  apply (RateLimitMiddleware_passes client 30 31 32
           (mret (mkResponse 200 [] (JSON []))) (NewIPRateLimiter 2 1) tt).
  - reflexivity.
  - intros ip info Hlook. simpl in Hlook. by rewrite lookup_empty in Hlook.
  - change (- 2 ^ 63 <= 2 <= 2 ^ 63 - 1). lia.
  - simpl. lia.
Defined.

End MiddlewareSamples.

(** * Further properties of the allocator and the repository *)

Section Generation.
Import Go Errors Models Process Services Invariants.
Context {R : Type} `{!Repository.LinkRepository R}.

Lemma string_get_below (s : string) (n : nat) :
  (n < String.length s)%nat -> exists c : ascii, String.get n s = Some c.
Proof.
  revert n. induction s as [|x s IH]; intros n Hn; simpl in *; [lia|].
  destruct n as [|n]; [by exists x|]. apply IH. lia.
Qed.

Lemma charset_at_below (i : Z) :
  0 <= i < len charset -> exists c : ascii, charset_at i = Some c.
Proof.
  intros [Hlo Hhi]. unfold charset_at.
  destruct (Z.ltb_spec i 0); [lia|].
  apply string_get_below. unfold len in Hhi. lia.
Qed.

Lemma in_contract_next (w : World R) (n : nat) :
  in_contract w (S n) ->
  in_contract (mkWorld (entropy w) (S (drawn w)) (repo w) (ClickEventsChannel w) (logs w)) n.
Proof.
  intros Hc j Hj. destruct (Hc (S j)) as (i & Hi & Hrange); [lia|].
  exists i. simpl. split; [|done]. rewrite <- Hi. f_equal. lia.
Qed.

Lemma in_contract_spells (n : nat) :
  forall w : World R, in_contract w n ->
    exists code : string, code_from (entropy w) (drawn w) n = Some code.
Proof.
  induction n as [|n IH]; intros w Hc; simpl; [by eexists|].
  destruct (Hc 0%nat) as (i & Hi & Hrange); [lia|].
  rewrite Nat.add_0_r in Hi. rewrite Hi.
  destruct (charset_at_below i Hrange) as [c ->].
  destruct (IH _ (in_contract_next w n Hc)) as [rest Hrest]. simpl in Hrest.
  rewrite Hrest. by eexists.
Qed.

(** X9: under the contract of [rand.Int], [GenerateShortCode] of any
    length [n] succeeds: it makes exactly [n] draws and returns a string of
    [n] bytes, each of the charset; it neither fails nor panics, and it
    touches nothing but the entropy source. *)
Theorem GenerateShortCode_in_contract (n : nat) (w : World R) :
  in_contract w n ->
  exists code : string,
    GenerateShortCode (Z.of_nat n) w = (Ok code, after_draws n w) /\
    String.length code = n /\
    Forall (fun c => In c (list_ascii_of_string charset)) (list_ascii_of_string code).
Proof.
  intros Hc. destruct (in_contract_spells n w Hc) as [code Hcode].
  exists code. split; [|by apply code_from_shape with (entropy w) (drawn w)].
  unfold GenerateShortCode.
  destruct (Z.ltb_spec (Z.of_nat n) 0); [lia|].
  rewrite Nat2Z.id. by rewrite (fill_spelled n EmptyString code w Hcode).
Qed.

(** The first draw that is no index of the charset ends the loop. *)
Lemma fill_stops (j : nat) :
  forall (n : nat) (acc : string) (w : World R),
    (j < n)%nat -> in_contract w j ->
    match entropy w (drawn w + j) with
    | inr err =>
        fill n acc w =
          (Err (ErrWrap "error generating random number" err), after_draws (S j) w)
    | inl i =>
        charset_at i = None ->
        fill n acc w = (Panic "index out of range", after_draws (S j) w)
    end.
Proof.
  induction j as [|j IH]; intros n acc w Hj Hc.
  - destruct n as [|n]; [lia|]. rewrite Nat.add_0_r.
    simpl. unfold mbind, State_bind, rand_Int.
    destruct (entropy w (drawn w)) as [i|err].
    + intros ->. unfold mret, State_ret, after_draws. do 2 f_equal. lia.
    + unfold mret, State_ret, after_draws. do 2 f_equal. lia.
  - destruct n as [|n]; [lia|].
    destruct (Hc 0%nat) as (i & Hi & Hrange); [lia|]. rewrite Nat.add_0_r in Hi.
    destruct (charset_at_below i Hrange) as [c Hchar].
    assert (j < n)%nat as Hj' by lia.
    pose proof (IH n (acc ++ String c EmptyString)%string _ Hj'
                  (in_contract_next w j Hc)) as Hrest.
    simpl in Hrest.
    replace (S (drawn w + j))%nat with (drawn w + S j)%nat in Hrest by lia.
    assert (after_draws (S j)
              (mkWorld (entropy w) (S (drawn w)) (repo w) (ClickEventsChannel w) (logs w))
            = after_draws (S (S j)) w) as Hworld.
    { unfold after_draws. simpl. f_equal. lia. }
    rewrite Hworld in Hrest.
    cbn [fill]. unfold mbind, State_bind, rand_Int. rewrite Hi, Hchar. exact Hrest.
Qed.

(** X10: the first draw that breaks the contract ends
    [GenerateShortCode] at once.  If it is an error of the entropy source,
    the error is returned wrapped once; if it is a number that is no index
    of the charset, the indexing panics.  Either way no later draw is
    made. *)
Theorem GenerateShortCode_stops_at_first_failure (j n : nat) (w : World R) :
  (j < n)%nat ->
  in_contract w j ->
  match entropy w (drawn w + j) with
  | inr err =>
      GenerateShortCode (Z.of_nat n) w =
        (Err (ErrWrap "error generating random number" err), after_draws (S j) w)
  | inl i =>
      charset_at i = None ->
      GenerateShortCode (Z.of_nat n) w =
        (Panic "index out of range", after_draws (S j) w)
  end.
Proof.
  intros Hj Hc. unfold GenerateShortCode.
  destruct (Z.ltb_spec (Z.of_nat n) 0); [lia|].
  rewrite Nat2Z.id. by apply fill_stops.
Qed.

End Generation.

Section Table.
Import Go Errors Models Process Services Invariants.
Import Repository (DB, links, next_id, fault, short_codes, First_by_short_code, Create,
                   unique_violation).

Lemma GenerateShortCode_in_contract_witness :
  exists code : string,
    GenerateShortCode 6 fresh_world = (Ok code, after_draws 6 fresh_world) /\
    String.length code = 6%nat /\
    Forall (fun c => In c (list_ascii_of_string charset)) (list_ascii_of_string code).
Proof.
  apply (GenerateShortCode_in_contract 6 fresh_world).
  intros j Hj. exists 0. split; [reflexivity|]. change (0 <= 0 < 62). lia.
Defined.

Lemma GenerateShortCode_stops_at_first_failure_witness :
  GenerateShortCode 6 dry_world =
    (Err (ErrWrap "error generating random number" (ErrForeign "unexpected EOF")),
     after_draws 1 dry_world).
Proof.
  apply (GenerateShortCode_stops_at_first_failure 0 6 dry_world).
  - lia.
  - intros j Hj. lia.
Defined.

Lemma Create_ok (link : Link) (db : DB) :
  fault db = None -> ~ In (ShortCode link) (short_codes db) ->
  Create link db = ((stored link db, None), with_row (stored link db) db).
Proof.
  intros Hfault Hfree. unfold Create, with_row. rewrite Hfault, existsb_short_code.
  fold (short_codes db).
  destruct (existsb (String.eqb (ShortCode link)) (short_codes db)) eqn:E;
    [|reflexivity].
  apply existsb_eqb_In in E. done.
Qed.

Lemma Create_cases (link : Link) (db : DB) :
  (fault db = None /\ ~ In (ShortCode link) (short_codes db) /\
   Create link db = ((stored link db, None), with_row (stored link db) db)) \/
  (exists err : error, Create link db = ((link, Some err), db)).
Proof.
  destruct (fault db) as [msg|] eqn:Hfault.
  { right. exists (ErrForeign msg). unfold Create. by rewrite Hfault. }
  destruct (existsb (String.eqb (ShortCode link)) (short_codes db)) eqn:E.
  - right. exists unique_violation. apply existsb_eqb_In in E. by apply Create_conflict.
  - left. assert (~ In (ShortCode link) (short_codes db)) as Hfree.
    { intros Hin. apply existsb_eqb_In in Hin. congruence. }
    split; [done|]. split; [done|]. by apply Create_ok.
Qed.

Lemma find_app_row (code : string) (ls : list Link) (row : Link) :
  find (fun l => String.eqb (ShortCode l) code) (ls ++ [row]) =
    match find (fun l => String.eqb (ShortCode l) code) ls with
    | Some l => Some l
    | None => if String.eqb (ShortCode row) code then Some row else None
    end.
Proof.
  induction ls as [|l ls IH]; simpl; [done|].
  by destruct (String.eqb (ShortCode l) code).
Qed.

Lemma First_with_row (code : string) (row : Link) (db : DB) :
  fault db = None -> ~ In (ShortCode row) (short_codes db) ->
  First_by_short_code code (with_row row db) =
    if String.eqb (ShortCode row) code then inl row else First_by_short_code code db.
Proof.
  intros Hfault Hfree. unfold First_by_short_code, with_row. simpl.
  rewrite Hfault, find_app_row.
  pose proof (find_short_code code (links db)) as Hfind.
  destruct (find _ (links db)) as [l|].
  - destruct (String.eqb_spec (ShortCode row) code) as [Heq|]; [|done].
    destruct Hfind as [Hl Hin]. destruct Hfree. rewrite Heq, <- Hl. by apply in_map.
  - by destruct (String.eqb (ShortCode row) code).
Qed.

Lemma Create_well_keyed (link : Link) (db : DB) :
  well_keyed db -> well_keyed (Create link db).2.
Proof.
  intros [Hcodes Hids].
  destruct (Create_cases link db) as [(Hfault & Hfree & ->)|[err ->]]; [|done].
  split; simpl.
  - unfold short_codes, with_row. simpl. rewrite map_app. simpl.
    apply NoDup_app. split; [done|]. split; [|apply NoDup_singleton].
    intros code Hin Hrow. apply list_elem_of_In in Hin.
    apply list_elem_of_singleton in Hrow. subst code. done.
  - apply Forall_app. split.
    + eapply Forall_impl; [exact Hids|]. intros l Hl. simpl in *. lia.
    + constructor; [simpl; lia|constructor].
Qed.

Lemma First_free (code : string) (db : DB) :
  fault db = None -> ~ In code (short_codes db) ->
  First_by_short_code code db = inr ErrRecordNotFound.
Proof.
  intros Hfault Hfree. unfold First_by_short_code. rewrite Hfault.
  pose proof (find_short_code code (links db)) as Hfind.
  destruct (find _ (links db)) as [l|]; [|done].
  destruct Hfind as [<- Hin]. destruct Hfree. by apply in_map.
Qed.

(** The loop after some collisions and one free candidate. *)
Lemma retry_first_free (codes : list string) :
  forall (i : Z) (w : World DB) (m : nat) (code : string),
    fault (repo w) = None ->
    (forall (k : nat) (c : string),
       codes !! k = Some c ->
       candidate w k = Some c /\ In c (short_codes (repo w))) ->
    candidate w (length codes) = Some code ->
    ~ In code (short_codes (repo w)) ->
    retry (length codes + S m) i w =
      (Ok code,
       with_logs (imap (fun k c => LogCollision c (i + Z.of_nat k + 1) maxRetries) codes)
         (after_draws (6 * S (length codes)) w)).
Proof.
  induction codes as [|c cs IH]; intros i w m code Hfault Hall Hcand Hfree.
  - unfold candidate in Hcand. simpl in Hcand. rewrite Nat.add_0_r in Hcand.
    cbn [length Nat.add retry]. rewrite GenerateShortCode_6.
    unfold mbind, State_bind at 1. rewrite (fill_spelled 6 EmptyString code w Hcand).
    change (EmptyString ++ code)%string with code.
    unfold mbind, State_bind at 1. rewrite on_repo_lookup.
    rewrite (First_free code (repo (after_draws 6 w))) by done.
    simpl. unfold mret, State_ret, with_logs, after_draws. simpl.
    by rewrite app_nil_r.
  - destruct (Hall 0%nat c eq_refl) as [Hc Hin].
    unfold candidate in Hc. rewrite Nat.mul_0_r, Nat.add_0_r in Hc.
    cbn [length Nat.add retry]. rewrite GenerateShortCode_6.
    unfold mbind, State_bind at 1. rewrite (fill_spelled 6 EmptyString c w Hc).
    change (EmptyString ++ c)%string with c.
    unfold mbind, State_bind at 1. rewrite on_repo_lookup.
    destruct (First_found c (repo (after_draws 6 w))) as (l & -> & _); [done..|].
    unfold mbind, State_bind at 1, log_Printf, modify.
    rewrite (IH (i + 1) _ m code); [| done | | |done].
    + unfold with_logs, after_draws. simpl. f_equal. f_equal; [lia|].
      rewrite <- app_assoc. f_equal. simpl. f_equal.
      * f_equal. lia.
      * apply imap_ext. intros k x _. simpl. f_equal. lia.
    + intros k x Hk. destruct (Hall (S k) x Hk) as [Hx Hi]. split; [|done].
      unfold candidate in *. simpl entropy. simpl drawn.
      replace (drawn w + 6 + 6 * k)%nat with (drawn w + 6 * S k)%nat by lia. done.
    + unfold candidate in *. simpl entropy. simpl drawn.
      replace (drawn w + 6 + 6 * length cs)%nat
        with (drawn w + 6 * length (c :: cs))%nat by (simpl; lia).
      done.
Qed.

Lemma candidate_not_empty (w : World DB) (k : nat) (code : string) :
  candidate w k = Some code -> String.eqb code EmptyString = false.
Proof.
  intros Hcand. apply code_from_shape in Hcand as [Hlen _].
  by destruct code.
Qed.

Lemma persistLink_ok (code longURL : string) (w : World DB) :
  fault (repo w) = None -> ~ In code (short_codes (repo w)) ->
  persistLink code longURL w =
    (Ok (stored (newLink code longURL false) (repo w)),
     mkWorld (entropy w) (drawn w)
       (with_row (stored (newLink code longURL false) (repo w)) (repo w))
       (ClickEventsChannel w) (logs w)).
Proof.
  intros Hfault Hfree. unfold persistLink, mbind, State_bind, on_repo.
  change (Repository.CreateLink (newLink code longURL false) (repo w))
    with (Create (newLink code longURL false) (repo w)).
  by rewrite Create_ok.
Qed.

(** X12: [CreateLink] takes the first candidate that is free.  When the
    first [k] candidates (fewer than five) are codes of the table and the
    next one is not, it makes [6 (k + 1)] draws, logs the [k] collisions
    and stores one link with that candidate as its code and the given
    URL; the link it returns is the stored row. *)
Theorem CreateLink_takes_first_free (w : World DB) (longURL : string)
    (codes : list string) (code : string) :
  fault (repo w) = None ->
  (length codes < 5)%nat ->
  (forall (k : nat) (c : string),
     codes !! k = Some c ->
     candidate w k = Some c /\ In c (short_codes (repo w))) ->
  candidate w (length codes) = Some code ->
  ~ In code (short_codes (repo w)) ->
  CreateLink longURL w =
    (Ok (stored (newLink code longURL false) (repo w)),
     mkWorld (entropy w) (drawn w + 6 * S (length codes))
       (with_row (stored (newLink code longURL false) (repo w)) (repo w))
       (ClickEventsChannel w) (logs w ++ collision_lines codes)).
Proof.
  intros Hfault Hlen Hall Hcand Hfree.
  unfold CreateLink, pickShortCode.
  change (Z.to_nat maxRetries) with 5%nat.
  pose proof (retry_first_free codes 0 w (4 - length codes) code
                Hfault Hall Hcand Hfree) as Hretry.
  replace (length codes + S (4 - length codes))%nat with 5%nat in Hretry by lia.
  unfold mbind, State_bind at 1. unfold mbind, State_bind at 1.
  rewrite Hretry, (candidate_not_empty w _ code Hcand).
  unfold mret, State_ret. rewrite persistLink_ok by done.
  reflexivity.
Qed.

Lemma CreateLink_takes_first_free_witness :
  CreateLink "https://example.org" second_try_world =
    (Ok (stored (newLink "bbbbbb" "https://example.org" false) (repo second_try_world)),
     mkWorld (entropy second_try_world) (drawn second_try_world + 6 * 2)
       (with_row (stored (newLink "bbbbbb" "https://example.org" false)
                    (repo second_try_world)) (repo second_try_world))
       (ClickEventsChannel second_try_world)
       (logs second_try_world ++ collision_lines ["aaaaaa"%string])).
Proof.
  apply (CreateLink_takes_first_free second_try_world "https://example.org"
           ["aaaaaa"%string] "bbbbbb").
  - reflexivity.
  - simpl. lia.
  - intros k c Hk. destruct k as [|k]; [|discriminate Hk].
    injection Hk as <-. split; [reflexivity|left; reflexivity].
  - reflexivity.
  - vm_compute. intros [H|[]]. discriminate H.
Defined.

(** X13: a database failure during the existence check ends
    [CreateLink] at once: the error is returned wrapped as an error of
    the uniqueness check after the six draws of the first candidate; no
    further candidate is drawn and nothing is stored or logged. *)
Theorem CreateLink_aborts_on_database_error (w : World DB) (longURL msg code : string) :
  fault (repo w) = Some msg ->
  candidate w 0 = Some code ->
  CreateLink longURL w =
    (Err (ErrWrap "database error checking short code uniqueness" (ErrForeign msg)),
     after_draws 6 w).
Proof.
  intros Hfault Hcand.
  unfold candidate in Hcand. rewrite Nat.mul_0_r, Nat.add_0_r in Hcand.
  unfold CreateLink, pickShortCode. change (Z.to_nat maxRetries) with 5%nat.
  cbn [retry]. rewrite GenerateShortCode_6.
  unfold mbind, State_bind. rewrite (fill_spelled 6 EmptyString code w Hcand).
  rewrite on_repo_lookup. unfold First_by_short_code.
  change (repo (after_draws 6 w)) with (repo w). rewrite Hfault.
  reflexivity.
Qed.

Lemma CreateLink_aborts_on_database_error_witness :
  CreateLink "https://example.org" offline_world =
    (Err (ErrWrap "database error checking short code uniqueness"
            (ErrForeign "database is closed")),
     after_draws 6 offline_world).
Proof.
  apply (CreateLink_aborts_on_database_error offline_world "https://example.org"
           "database is closed" "aaaaaa").
  - reflexivity.
  - reflexivity.
Defined.

Lemma CreateLink_ok_inv (w w' : World DB) (longURL : string) (link : Link) :
  CreateLink longURL w = (Ok link, w') ->
  fault (repo w) = None /\
  ~ In (ShortCode link) (short_codes (repo w)) /\
  String.length (ShortCode link) = 6%nat /\
  Forall (fun c => In c (list_ascii_of_string charset))
    (list_ascii_of_string (ShortCode link)) /\
  link = stored (newLink (ShortCode link) longURL false) (repo w) /\
  repo w' = with_row link (repo w).
Proof.
  unfold CreateLink. unfold mbind, State_bind at 1.
  destruct (pickShortCode w) as [picked w1] eqn:Hpick.
  destruct picked as [code|err|msg]; [|done..].
  apply pickShortCode_inv in Hpick as (Hrepo & Hlen & Hchars & Hfault & Hfree).
  rewrite persistLink_ok by (by rewrite Hrepo).
  rewrite Hrepo. intros [= <- <-]. done.
Qed.

(** X14: a link that [CreateLink] returns can be looked up at once: in
    the world it leaves, [GetLinkByShortCode] of the returned code finds
    exactly the returned link, which carries the given URL, is active, is
    not custom and does not expire. *)
Theorem CreateLink_then_lookup (w w' : World DB) (longURL : string) (link : Link) :
  CreateLink longURL w = (Ok link, w') ->
  GetLinkByShortCode (ShortCode link) w' = (inl link, w') /\
  LongURL link = longURL /\
  IsActive link = true /\ IsCustom link = false /\ ExpiresAt link = None.
Proof.
  intros Hcreate.
  apply CreateLink_ok_inv in Hcreate as (Hfault & Hfree & _ & _ & Hlink & Hrepo).
  split; [|by rewrite Hlink].
  unfold GetLinkByShortCode. rewrite on_repo_lookup, Hrepo.
  rewrite First_with_row by done. by rewrite String.eqb_refl.
Qed.

Lemma CreateLink_then_lookup_witness :
  GetLinkByShortCode
    (ShortCode (mkLink 1 "aaaaaa" "https://example.com" 1000 true None false))
    crowded_world =
    (inl (mkLink 1 "aaaaaa" "https://example.com" 1000 true None false), crowded_world) /\
  LongURL (mkLink 1 "aaaaaa" "https://example.com" 1000 true None false) =
    "https://example.com"%string /\
  IsActive (mkLink 1 "aaaaaa" "https://example.com" 1000 true None false) = true /\
  IsCustom (mkLink 1 "aaaaaa" "https://example.com" 1000 true None false) = false /\
  ExpiresAt (mkLink 1 "aaaaaa" "https://example.com" 1000 true None false) = None.
Proof.
  apply (CreateLink_then_lookup fresh_world crowded_world "https://example.com").
  vm_compute. reflexivity.
Defined.

(** The check of a custom alias never changes the world. *)
Lemma checkCustomAlias_world (alias : string) (w : World DB) :
  (checkCustomAlias alias w).2 = w.
Proof.
  unfold checkCustomAlias.
  destruct (String.eqb alias EmptyString); [done|].
  destruct ((len alias <? 3) || (20 <? len alias)); [done|].
  destruct (negb (validAliasPattern_MatchString alias)); [done|].
  destruct (existsb (String.eqb alias) reservedWords); [done|].
  unfold mbind, State_bind. rewrite on_repo_lookup.
  destruct (First_by_short_code alias (repo w)) as [l|err]; [done|].
  by destruct (IsRecordNotFound err).
Qed.

(** The check of a custom alias against the rules, for a database that
    answers. *)
Lemma checkCustomAlias_spec (alias : string) (w : World DB) :
  fault (repo w) = None ->
  checkCustomAlias alias w =
    (match first_violation (repo w) alias with
     | Some rule => Err (rule_error alias rule)
     | None => Ok tt
     end, w).
Proof.
  intros Hfault. rewrite first_violation_unfold. unfold checkCustomAlias.
  rewrite (rule1_spec (repo w)), (rule2_spec (repo w)), (rule4_spec (repo w)).
  destruct (rule_holds (repo w) alias NonEmpty) eqn:H1; cbn [negb]; [|done].
  destruct (rule_holds (repo w) alias LengthWithin3And20); cbn [negb]; [|done].
  rewrite (rule3_spec (repo w)).
  2:{ intros ->. discriminate H1. }
  destruct (rule_holds (repo w) alias LettersDigitsHyphen); cbn [negb]; [|done].
  destruct (rule_holds (repo w) alias NotReserved); cbn [negb]; [|done].
  unfold mbind, State_bind. rewrite on_repo_lookup.
  pose proof (rule5_spec (repo w) alias Hfault) as Huse.
  destruct (First_by_short_code alias (repo w)) as [l|err].
  - by rewrite Huse.
  - destruct Huse as [-> ->]. done.
Qed.

Lemma persistCustomAlias_repo (longURL alias : string) (w : World DB) :
  repo (persistCustomAlias longURL alias w).2 =
    (Create (newLink alias longURL true) (repo w)).2.
Proof.
  unfold persistCustomAlias, mbind, State_bind, on_repo.
  change (Repository.CreateLink (newLink alias longURL true) (repo w))
    with (Create (newLink alias longURL true) (repo w)).
  destruct (Create (newLink alias longURL true) (repo w)) as [[link [err|]] r]; done.
Qed.

Lemma persistLink_repo (code longURL : string) (w : World DB) :
  repo (persistLink code longURL w).2 =
    (Create (newLink code longURL false) (repo w)).2.
Proof.
  unfold persistLink, mbind, State_bind, on_repo.
  change (Repository.CreateLink (newLink code longURL false) (repo w))
    with (Create (newLink code longURL false) (repo w)).
  destruct (Create (newLink code longURL false) (repo w)) as [[link [err|]] r]; done.
Qed.

Lemma pickShortCode_repo (w : World DB) : repo (pickShortCode w).2 = repo w.
Proof.
  unfold pickShortCode. unfold mbind, State_bind.
  destruct (retry (Z.to_nat maxRetries) 0 w) as [r w1] eqn:Hrun.
  apply retry_inv in Hrun as [Hrepo _].
  destruct r as [c|err|msg]; [|done..].
  by destruct (String.eqb c EmptyString).
Qed.

(** X15: both allocators keep the keys of the table.  If the short
    codes of the table are pairwise distinct and every ID is below the
    auto-increment counter, the same holds after [CreateLink] and after
    [CreateLinkWithCustomAlias], whatever they return. *)
Theorem allocators_keep_keys (w : World DB) (longURL alias : string) :
  well_keyed (repo w) ->
  well_keyed (repo (CreateLink longURL w).2) /\
  well_keyed (repo (CreateLinkWithCustomAlias longURL alias w).2).
Proof.
  intros Hkeys. split.
  - unfold CreateLink. unfold mbind, State_bind at 1.
    pose proof (pickShortCode_repo w) as Hrepo.
    destruct (pickShortCode w) as [picked w1]. simpl in Hrepo.
    destruct picked as [code|err|msg]; simpl; [|by rewrite Hrepo..].
    rewrite persistLink_repo, Hrepo. by apply Create_well_keyed.
  - unfold CreateLinkWithCustomAlias. unfold mbind, State_bind at 1.
    pose proof (checkCustomAlias_world alias w) as Hworld.
    destruct (checkCustomAlias alias w) as [checked w1]. simpl in Hworld. subst w1.
    destruct checked as [[]|err|msg]; simpl; [|done..].
    rewrite persistCustomAlias_repo. by apply Create_well_keyed.
Qed.

Lemma allocators_keep_keys_witness :
  well_keyed (repo (CreateLink "https://example.org" crowded_world).2) /\
  well_keyed (repo (CreateLinkWithCustomAlias "https://example.org" "promo" crowded_world).2).
Proof.
  apply (allocators_keep_keys crowded_world "https://example.org" "promo").
  split.
  - vm_compute. constructor; [intros H; inversion H|constructor].
  - vm_compute. constructor; [reflexivity|constructor].
Defined.

Lemma persistCustomAlias_ok (longURL alias : string) (w : World DB) :
  fault (repo w) = None -> ~ In alias (short_codes (repo w)) ->
  persistCustomAlias longURL alias w =
    (Ok (stored (newLink alias longURL true) (repo w)),
     mkWorld (entropy w) (drawn w)
       (with_row (stored (newLink alias longURL true) (repo w)) (repo w))
       (ClickEventsChannel w) (logs w ++ [LogAliasCreated alias])).
Proof.
  intros Hfault Hfree. unfold persistCustomAlias, mbind, State_bind, on_repo.
  change (Repository.CreateLink (newLink alias longURL true) (repo w))
    with (Create (newLink alias longURL true) (repo w)).
  by rewrite Create_ok.
Qed.

Lemma CreateLinkWithCustomAlias_steps (longURL alias : string) (w : World DB) :
  CreateLinkWithCustomAlias longURL alias w =
    match (checkCustomAlias alias w).1 with
    | Ok _ => persistCustomAlias longURL alias w
    | Err err => (Err err, w)
    | Panic msg => (Panic msg, w)
    end.
Proof.
  unfold CreateLinkWithCustomAlias. unfold mbind, State_bind at 1.
  pose proof (checkCustomAlias_world alias w) as Hworld.
  destruct (checkCustomAlias alias w) as [checked w1]. simpl in *. subst w1.
  by destruct checked.
Qed.

Lemma first_violation_None (db : DB) (alias : string) :
  first_violation db alias = None <->
  forallb (rule_holds db alias)
    [NonEmpty; LengthWithin3And20; LettersDigitsHyphen; NotReserved; NotInUse] = true.
Proof.
  rewrite first_violation_unfold. cbn [forallb].
  destruct (rule_holds db alias NonEmpty);
    destruct (rule_holds db alias LengthWithin3And20);
    destruct (rule_holds db alias LettersDigitsHyphen);
    destruct (rule_holds db alias NotReserved);
    destruct (rule_holds db alias NotInUse); cbn [negb andb]; split; congruence.
Qed.

Lemma CreateLinkWithCustomAlias_ok_inv (w w' : World DB) (longURL alias : string)
    (link : Link) :
  CreateLinkWithCustomAlias longURL alias w = (Ok link, w') ->
  fault (repo w) = None /\
  first_violation (repo w) alias = None /\
  link = stored (newLink alias longURL true) (repo w) /\
  w' = mkWorld (entropy w) (drawn w) (with_row link (repo w))
         (ClickEventsChannel w) (logs w ++ [LogAliasCreated alias]).
Proof.
  rewrite CreateLinkWithCustomAlias_steps.
  destruct (fault (repo w)) as [msg|] eqn:Hfault.
  { destruct (checkCustomAlias alias w).1 as [[]|err|m] eqn:Hcheck; [|done..].
    unfold persistCustomAlias, mbind, State_bind, on_repo.
    change (Repository.CreateLink (newLink alias longURL true) (repo w))
      with (Create (newLink alias longURL true) (repo w)).
    unfold Create. by rewrite Hfault. }
  rewrite checkCustomAlias_spec by done. simpl.
  destruct (first_violation (repo w) alias) as [rule|] eqn:Hrules; [done|].
  assert (~ In alias (short_codes (repo w))) as Hfree.
  { apply first_violation_None in Hrules. cbn [forallb] in Hrules.
    repeat (apply andb_prop in Hrules as [? Hrules]).
    intros Hin. apply existsb_eqb_In in Hin.
    match goal with H : rule_holds _ _ NotInUse = true |- _ =>
      unfold rule_holds in H; rewrite Hin in H; discriminate H end. }
  rewrite persistCustomAlias_ok by done. intros [= <- <-]. done.
Qed.

(** The insert of a link the services build either stores it, or fails
    and leaves the repository as it was. *)
Lemma persistLink_cases (code longURL : string) (w : World DB) :
  (exists link : Link, (persistLink code longURL w).1 = Ok link) \/
  (exists err : error, persistLink code longURL w = (Err err, w)).
Proof.
  unfold persistLink, mbind, State_bind, on_repo.
  change (Repository.CreateLink (newLink code longURL false) (repo w))
    with (Create (newLink code longURL false) (repo w)).
  destruct (Create_cases (newLink code longURL false) (repo w))
    as [(_ & _ & ->)|[err ->]].
  - left. by eexists.
  - right. eexists. by destruct w.
Qed.

Lemma persistCustomAlias_cases (longURL alias : string) (w : World DB) :
  (exists link : Link, (persistCustomAlias longURL alias w).1 = Ok link) \/
  (exists err : error, persistCustomAlias longURL alias w = (Err err, w)).
Proof.
  unfold persistCustomAlias, mbind, State_bind, on_repo.
  change (Repository.CreateLink (newLink alias longURL true) (repo w))
    with (Create (newLink alias longURL true) (repo w)).
  destruct (Create_cases (newLink alias longURL true) (repo w))
    as [(_ & _ & ->)|[err ->]].
  - left. by eexists.
  - right. eexists. by destruct w.
Qed.

(** X11: an allocation disturbs no other code.  After [CreateLink] or
    [CreateLinkWithCustomAlias] has returned a link, the lookup of any
    code other than the link's answers as it did before; when they return
    an error (or panic) the repository is as it was: a failed allocation
    stores nothing. *)
Theorem allocation_disturbs_no_other_code (w : World DB) (longURL alias code : string) :
  let kept (out : outcome Link * World DB) :=
    match out.1 with
    | Ok link =>
        code <> ShortCode link ->
        (GetLinkByShortCode code out.2).1 = (GetLinkByShortCode code w).1
    | Err _ | Panic _ => repo out.2 = repo w
    end in
  kept (CreateLink longURL w) /\ kept (CreateLinkWithCustomAlias longURL alias w).
Proof.
  cbv zeta. split.
  - destruct (CreateLink longURL w) as [out w'] eqn:Hrun. cbn [fst snd].
    destruct out as [link|err|msg].
    + intros Hne.
      destruct (CreateLink_ok_inv w w' longURL link Hrun)
        as (Hfault & Hfree & _ & _ & _ & Hrepo).
      unfold GetLinkByShortCode. rewrite !on_repo_lookup. cbn [fst].
      rewrite Hrepo, First_with_row by done.
      destruct (String.eqb_spec (ShortCode link) code); [congruence|done].
    + unfold CreateLink, mbind, State_bind in Hrun.
      pose proof (pickShortCode_repo w) as Hpick.
      destruct (pickShortCode w) as [[c|e|m] w1]; cbn [snd] in Hpick.
      * destruct (persistLink_cases c longURL w1) as [[l Hok]|[e Hfail]].
        -- rewrite Hrun in Hok. discriminate Hok.
        -- rewrite Hfail in Hrun. by injection Hrun as _ <-.
      * by injection Hrun as _ <-.
      * discriminate Hrun.
    + unfold CreateLink, mbind, State_bind in Hrun.
      pose proof (pickShortCode_repo w) as Hpick.
      destruct (pickShortCode w) as [[c|e|m] w1]; cbn [snd] in Hpick.
      * destruct (persistLink_cases c longURL w1) as [[l Hok]|[e Hfail]].
        -- rewrite Hrun in Hok. discriminate Hok.
        -- rewrite Hfail in Hrun. discriminate Hrun.
      * discriminate Hrun.
      * by injection Hrun as _ <-.
  - destruct (CreateLinkWithCustomAlias longURL alias w) as [out w'] eqn:Hrun.
    cbn [fst snd]. destruct out as [link|err|msg].
    + intros Hne.
      destruct (CreateLinkWithCustomAlias_ok_inv w w' longURL alias link Hrun)
        as (Hfault & Hnone & Hlink & ->).
      apply first_violation_None in Hnone. cbn [forallb] in Hnone.
      assert (~ In (ShortCode link) (short_codes (repo w))) as Hfree.
      { rewrite Hlink. cbn [stored ShortCode newLink]. intros Hin.
        apply existsb_eqb_In in Hin.
        destruct (rule_holds (repo w) alias NonEmpty),
          (rule_holds (repo w) alias LengthWithin3And20),
          (rule_holds (repo w) alias LettersDigitsHyphen),
          (rule_holds (repo w) alias NotReserved); try discriminate Hnone.
        cbn [andb] in Hnone. unfold rule_holds in Hnone. rewrite Hin in Hnone.
        discriminate Hnone. }
      unfold GetLinkByShortCode. rewrite !on_repo_lookup. cbn [fst repo].
      rewrite First_with_row by done.
      destruct (String.eqb_spec (ShortCode link) code); [congruence|done].
    + rewrite CreateLinkWithCustomAlias_steps in Hrun.
      pose proof (checkCustomAlias_world alias w) as Hcheck.
      destruct (checkCustomAlias alias w) as [[u|e|m] w1]; cbn [fst snd] in Hrun, Hcheck.
      * destruct (persistCustomAlias_cases longURL alias w) as [[l Hok]|[e Hfail]].
        -- rewrite Hrun in Hok. discriminate Hok.
        -- rewrite Hfail in Hrun. by injection Hrun as _ <-.
      * by injection Hrun as _ <-.
      * discriminate Hrun.
    + rewrite CreateLinkWithCustomAlias_steps in Hrun.
      pose proof (checkCustomAlias_world alias w) as Hcheck.
      destruct (checkCustomAlias alias w) as [[u|e|m] w1]; cbn [fst snd] in Hrun, Hcheck.
      * destruct (persistCustomAlias_cases longURL alias w) as [[l Hok]|[e Hfail]].
        -- rewrite Hrun in Hok. discriminate Hok.
        -- rewrite Hfail in Hrun. discriminate Hrun.
      * discriminate Hrun.
      * by injection Hrun as _ <-.
Qed.

(** X16: [CreateLinkWithCustomAlias] never stores a link that breaks a
    rule.  Whenever it returns a link, the alias passed all five rules
    against the table it started with; the link is the stored row of a
    custom link with the alias as its code and the given URL, it is the
    one row added to the table, and one line is logged. *)
Theorem CreateLinkWithCustomAlias_only_valid (w w' : World DB) (longURL alias : string)
    (link : Link) :
  CreateLinkWithCustomAlias longURL alias w = (Ok link, w') ->
  forallb (rule_holds (repo w) alias)
    [NonEmpty; LengthWithin3And20; LettersDigitsHyphen; NotReserved; NotInUse] = true /\
  link = stored (newLink alias longURL true) (repo w) /\
  w' = mkWorld (entropy w) (drawn w) (with_row link (repo w))
         (ClickEventsChannel w) (logs w ++ [LogAliasCreated alias]).
Proof.
  intros Hok. apply CreateLinkWithCustomAlias_ok_inv in Hok as (_ & Hrules & Hlink & Hw).
  split; [by apply first_violation_None|done].
Qed.

Lemma CreateLinkWithCustomAlias_only_valid_witness :
  forallb (rule_holds (repo fresh_world) "promo")
    [NonEmpty; LengthWithin3And20; LettersDigitsHyphen; NotReserved; NotInUse] = true /\
  (rival "promo" fresh_world).1 =
    Ok (stored (newLink "promo" "https://rival.example" true) (repo fresh_world)) /\
  (rival "promo" fresh_world).2 =
    mkWorld (entropy fresh_world) (drawn fresh_world)
      (with_row (stored (newLink "promo" "https://rival.example" true) (repo fresh_world))
         (repo fresh_world))
      (ClickEventsChannel fresh_world) (logs fresh_world ++ [LogAliasCreated "promo"]).
Proof.
  destruct (CreateLinkWithCustomAlias_only_valid fresh_world (rival "promo" fresh_world).2
              "https://rival.example" "promo"
              (stored (newLink "promo" "https://rival.example" true) (repo fresh_world)))
    as (Hrules & _ & Hworld).
  - vm_compute. reflexivity.
  - split; [exact Hrules|]. split; [vm_compute; reflexivity|exact Hworld].
Defined.

Lemma syntax_rules_any_table (db db' : DB) (alias : string) (rule : AliasRule) :
  rule <> NotInUse -> rule_holds db alias rule = rule_holds db' alias rule.
Proof. by destruct rule. Qed.

(** X17: an alias is given out once.  After [CreateLinkWithCustomAlias]
    has returned a link for an alias, every further call for the same
    alias, with whatever URL, is refused with the error "already used"
    and changes nothing. *)
Theorem CreateLinkWithCustomAlias_twice (w w1 : World DB) (longURL again alias : string)
    (link : Link) :
  CreateLinkWithCustomAlias longURL alias w = (Ok link, w1) ->
  CreateLinkWithCustomAlias again alias w1 = (Err (alias_taken alias), w1).
Proof.
  intros Hok.
  apply CreateLinkWithCustomAlias_ok_inv in Hok as (Hfault & Hrules & Hlink & Hw1).
  assert (fault (repo w1) = None) as Hfault1 by (by rewrite Hw1).
  assert (In alias (short_codes (repo w1))) as Hin.
  { rewrite Hw1. unfold short_codes, with_row. simpl. rewrite map_app.
    apply in_or_app. right. left. by rewrite Hlink. }
  rewrite CreateLinkWithCustomAlias_steps, checkCustomAlias_spec by done. simpl.
  apply first_violation_None in Hrules. cbn [forallb] in Hrules.
  apply andb_prop in Hrules as [H1 Hrules]. apply andb_prop in Hrules as [H2 Hrules].
  apply andb_prop in Hrules as [H3 Hrules]. apply andb_prop in Hrules as [H4 _].
  rewrite first_violation_unfold.
  rewrite <- (syntax_rules_any_table (repo w) (repo w1) alias NonEmpty), H1 by done.
  rewrite <- (syntax_rules_any_table (repo w) (repo w1) alias LengthWithin3And20), H2
    by done.
  rewrite <- (syntax_rules_any_table (repo w) (repo w1) alias LettersDigitsHyphen), H3
    by done.
  rewrite <- (syntax_rules_any_table (repo w) (repo w1) alias NotReserved), H4 by done.
  assert (rule_holds (repo w1) alias NotInUse = false) as ->.
  { unfold rule_holds. apply negb_false_iff. by apply existsb_eqb_In. }
  done.
Qed.

Lemma CreateLinkWithCustomAlias_twice_witness :
  CreateLinkWithCustomAlias "https://example.org" "promo" (rival "promo" fresh_world).2 =
    (Err (alias_taken "promo"), (rival "promo" fresh_world).2).
Proof.
  apply (CreateLinkWithCustomAlias_twice fresh_world (rival "promo" fresh_world).2
           "https://rival.example" "https://example.org" "promo"
           (stored (newLink "promo" "https://rival.example" true) (repo fresh_world))).
  vm_compute. reflexivity.
Defined.




End Table.

(** * Further properties of the redirect *)

Section RedirectPaths.
Import Go Errors Models Process Http Api Telemetry.
Context {R : Type} `{!Repository.LinkRepository R}.

(** X19: a redirect with room in the channel.  When the repository
    resolves the code to a link that is not expired and the buffer of the
    channel is not full, the handler appends one click event at the end of
    the buffer, with the ID of the link, the second clock reading, and the
    user agent and IP of the request, logs nothing, and answers 302 to
    the link's [LongURL]. *)
Theorem RedirectHandler_enqueues (w : World R) (req : Request) (link : Link) (r' : R)
    (ch : Chan) (now_expiry now_click : Time) :
  Repository.GetLinkByShortCode (param_shortCode req) (repo w) = (inl link, r') ->
  IsExpired link now_expiry = false ->
  ClickEventsChannel w = Some ch ->
  (length (buf ch) < cap ch)%nat ->
  RedirectHandler req now_expiry now_click w =
    (mkResponse StatusFound [] (Redirect (LongURL link)),
     mkWorld (entropy w) (drawn w) r'
       (Some {| buf := buf ch ++
                  [mkClickEvent (ID link) now_click (header_UserAgent req) (ClientIP req)];
                cap := cap ch |})
       (logs w)).
Proof.
  intros Hfound Hlive Hch Hroom.
  unfold RedirectHandler, Services.GetLinkByShortCode. unfold mbind, State_bind at 1.
  unfold on_repo. rewrite Hfound, Hlive.
  unfold trySend, mbind, State_bind, get. simpl. rewrite Hch.
  assert ((length (buf ch) <? cap ch)%nat = true) as -> by (by apply Nat.ltb_lt).
  reflexivity.
Qed.

(** X20: a redirect before [SetupRoutes] has made the channel.  With
    the channel still nil the send is never ready: the handler drops the
    event, logs the warning and answers 302 all the same. *)
Theorem RedirectHandler_nil_channel (w : World R) (req : Request) (link : Link) (r' : R)
    (now_expiry now_click : Time) :
  Repository.GetLinkByShortCode (param_shortCode req) (repo w) = (inl link, r') ->
  IsExpired link now_expiry = false ->
  ClickEventsChannel w = None ->
  RedirectHandler req now_expiry now_click w =
    (mkResponse StatusFound [] (Redirect (LongURL link)),
     mkWorld (entropy w) (drawn w) r' None
       (logs w ++ [LogChannelFull (param_shortCode req)])).
Proof.
  intros Hfound Hlive Hch.
  unfold RedirectHandler, Services.GetLinkByShortCode. unfold mbind, State_bind at 1.
  unfold on_repo. rewrite Hfound, Hlive.
  unfold trySend, mbind, State_bind, get. simpl. rewrite Hch.
  reflexivity.
Qed.

(** The answer to a request for a link that is not expired does not
    depend on the channel. *)
Lemma RedirectHandler_live (w : World R) (req : Request) (link : Link) (r' : R)
    (now_expiry now_click : Time) :
  Repository.GetLinkByShortCode (param_shortCode req) (repo w) = (inl link, r') ->
  IsExpired link now_expiry = false ->
  (RedirectHandler req now_expiry now_click w).1 =
    mkResponse StatusFound [] (Redirect (LongURL link)).
Proof.
  intros Hfound Hlive.
  destruct (ClickEventsChannel w) as [ch|] eqn:Hch.
  - destruct (Nat.lt_ge_cases (length (buf ch)) (cap ch)) as [Hroom|Hfull].
    + unfold RedirectHandler, Services.GetLinkByShortCode. unfold mbind, State_bind at 1.
      unfold on_repo. rewrite Hfound, Hlive.
      unfold trySend, mbind, State_bind, get. simpl. rewrite Hch.
      assert ((length (buf ch) <? cap ch)%nat = true) as -> by (by apply Nat.ltb_lt).
      reflexivity.
    + unfold RedirectHandler, Services.GetLinkByShortCode. unfold mbind, State_bind at 1.
      unfold on_repo. rewrite Hfound, Hlive.
      unfold trySend, mbind, State_bind, get. simpl. rewrite Hch.
      assert ((length (buf ch) <? cap ch)%nat = false) as ->
        by (apply Nat.ltb_ge; lia).
      reflexivity.
  - unfold RedirectHandler, Services.GetLinkByShortCode. unfold mbind, State_bind at 1.
    unfold on_repo. rewrite Hfound, Hlive.
    unfold trySend, mbind, State_bind, get. simpl. rewrite Hch.
    reflexivity.
Qed.

(** X21: a link is served up to and including the instant of its
    expiry, and a link without expiry is served at every instant: the
    answer is then 302 to its [LongURL], whatever the state of the
    channel. *)
Theorem RedirectHandler_serves_until_expiry (w : World R) (req : Request) (link : Link)
    (r' : R) (now_expiry now_click : Time) :
  Repository.GetLinkByShortCode (param_shortCode req) (repo w) = (inl link, r') ->
  match ExpiresAt link with
  | None => True
  | Some expiresAt => now_expiry <= expiresAt
  end ->
  (RedirectHandler req now_expiry now_click w).1 =
    mkResponse StatusFound [] (Redirect (LongURL link)).
Proof.
  intros Hfound Hlive. apply RedirectHandler_live with r'; [done|].
  unfold IsExpired. destruct (ExpiresAt link) as [expiresAt|]; [|done].
  unfold After. apply Z.ltb_ge. lia.
Qed.

Lemma trySend_cases (ev : ClickEvent) (w : World R) :
  match ClickEventsChannel w with
  | Some ch =>
      if (length (buf ch) <? cap ch)%nat
      then trySend ev w =
             (true, mkWorld (entropy w) (drawn w) (repo w)
                      (Some {| buf := buf ch ++ [ev]; cap := cap ch |}) (logs w))
      else trySend ev w = (false, w)
  | None => trySend ev w = (false, w)
  end.
Proof.
  unfold trySend, mbind, State_bind, get.
  destruct (ClickEventsChannel w) as [ch|]; [|done].
  by destruct (length (buf ch) <? cap ch)%nat.
Qed.

(** X22: the channel is a bounded queue in arrival order.  A run of
    sends on a channel that is within its capacity takes the events while
    there is room and refuses all the later ones: the buffer grows by the
    first [room] events, in their order, behind the events it held, and
    never grows beyond the capacity; nothing else in the world changes. *)
Theorem sendAll_fills_in_order (events : list ClickEvent) (w : World R) (ch : Chan) :
  ClickEventsChannel w = Some ch ->
  (length (buf ch) <= cap ch)%nat ->
  sendAll events w =
    (replicate (Nat.min (room ch) (length events)) true ++
     replicate (length events - room ch) false,
     mkWorld (entropy w) (drawn w) (repo w)
       (Some {| buf := buf ch ++ take (room ch) events; cap := cap ch |}) (logs w)).
Proof.
  revert w ch. induction events as [|ev rest IH]; intros w ch Hch Hcap.
  - simpl. unfold mret, State_ret.
    destruct w, ch; simpl in *. subst.
    rewrite ?Nat.min_0_r, ?take_nil. simpl. by rewrite ?app_nil_r.
  - cbn [sendAll]. unfold mbind, State_bind at 1.
    pose proof (trySend_cases ev w) as Hsend. rewrite Hch in Hsend.
    destruct (Nat.ltb_spec (length (buf ch)) (cap ch)) as [Hroom|Hfull].
    + rewrite Hsend. unfold mbind, State_bind.
      rewrite (IH _ {| buf := buf ch ++ [ev]; cap := cap ch |}); [|done|].
      2:{ simpl. rewrite length_app. simpl. lia. }
      unfold mret, State_ret, room. simpl. rewrite length_app. simpl.
      replace (cap ch - length (buf ch))%nat with (S (cap ch - (length (buf ch) + 1)))%nat
        by lia.
      simpl. rewrite <- app_assoc. simpl. done.
    + rewrite Hsend. unfold mbind, State_bind.
      rewrite (IH w ch Hch Hcap).
      unfold mret, State_ret, room.
      replace (cap ch - length (buf ch))%nat with 0%nat by lia.
      simpl. by rewrite Nat.sub_0_r.
Qed.

(** Events that fit into the room of the channel are all taken. *)
Lemma sendAll_within_room (events : list ClickEvent) (w : World R) (ch : Chan) :
  ClickEventsChannel w = Some ch ->
  (length (buf ch) + length events <= cap ch)%nat ->
  sendAll events w =
    (replicate (length events) true,
     mkWorld (entropy w) (drawn w) (repo w)
       (Some {| buf := buf ch ++ events; cap := cap ch |}) (logs w)).
Proof.
  revert w ch. induction events as [|ev rest IH]; intros w ch Hch Hcap.
  - simpl. unfold mret, State_ret.
    destruct w, ch; simpl in *. subst. by rewrite app_nil_r.
  - cbn [sendAll]. unfold mbind, State_bind at 1.
    pose proof (trySend_cases ev w) as Hsend. rewrite Hch in Hsend.
    simpl in Hcap.
    destruct (Nat.ltb_spec (length (buf ch)) (cap ch)) as [Hroom|Hfull]; [|lia].
    rewrite Hsend. unfold mbind, State_bind.
    rewrite (IH _ {| buf := buf ch ++ [ev]; cap := cap ch |}); [|done|].
    2:{ simpl. rewrite length_app. simpl. lia. }
    unfold mret, State_ret. simpl. by rewrite <- app_assoc.
Qed.

(** X23: [SetupRoutes] makes the channel once.  On a world without
    channel it makes an empty one with room for 1000 events, so that the
    sends of up to 1000 redirects are all taken, in order, before any
    worker receives; on a world with a channel it changes nothing, the
    queued events stay. *)
Theorem SetupRoutes_once (w : World R) (events : list ClickEvent) :
  (length events <= 1000)%nat ->
  match ClickEventsChannel w with
  | None =>
      sendAll events (SetupRoutes w).2 =
        (replicate (length events) true,
         mkWorld (entropy w) (drawn w) (repo w)
           (Some {| buf := events; cap := 1000 |}) (logs w))
  | Some _ => SetupRoutes w = (tt, w)
  end.
Proof.
  intros Hlen.
  assert (Hset : SetupRoutes w =
            (tt, match ClickEventsChannel w with
                 | None => mkWorld (entropy w) (drawn w) (repo w)
                             (Some {| buf := []; cap := 1000 |}) (logs w)
                 | Some _ => w
                 end)).
  { unfold SetupRoutes, mbind, State_bind, get.
    by destruct (ClickEventsChannel w). }
  rewrite !Hset. cbn [snd].
  destruct (ClickEventsChannel w) as [ch|] eqn:Hch.
  - reflexivity.
  - by rewrite (sendAll_within_room events _ {| buf := []; cap := 1000 |});
      [|reflexivity|simpl; lia].
Qed.

End RedirectPaths.

Section RedirectPathSamples.
Import Go Errors Models Process Http Middleware Services Api Telemetry Invariants.
Import Repository (DB, links, fault, short_codes, First_by_short_code).

Lemma RedirectHandler_enqueues_witness :
  RedirectHandler sample_request 200 201 roomy_world =
    (mkResponse StatusFound [] (Redirect (LongURL lasting_link)),
     mkWorld (entropy roomy_world) (drawn roomy_world) (repo roomy_world)
       (Some {| buf := [mkClickEvent 1 900 "curl/8.5.0" client] ++
                  [mkClickEvent (ID lasting_link) 201 (header_UserAgent sample_request)
                     (ClientIP sample_request)];
                cap := 3 |})
       (logs roomy_world)).
Proof.
  apply (RedirectHandler_enqueues roomy_world sample_request lasting_link
           (repo roomy_world)
           {| buf := [mkClickEvent 1 900 "curl/8.5.0" client]; cap := 3 |} 200 201).
  - reflexivity.
  - reflexivity.
  - reflexivity.
  - simpl. lia.
Defined.

Lemma RedirectHandler_nil_channel_witness :
  RedirectHandler sample_request 200 201 unset_world =
    (mkResponse StatusFound [] (Redirect (LongURL lasting_link)),
     mkWorld (entropy unset_world) (drawn unset_world) (repo unset_world) None
       (logs unset_world ++ [LogChannelFull (param_shortCode sample_request)])).
Proof.
  apply (RedirectHandler_nil_channel unset_world sample_request lasting_link
           (repo unset_world) 200 201).
  - reflexivity.
  - reflexivity.
  - reflexivity.
Defined.

Lemma RedirectHandler_serves_until_expiry_witness :
  (RedirectHandler sample_request 100 101 expired_world).1 =
    mkResponse StatusFound [] (Redirect (LongURL expired_link)).
Proof.
  apply (RedirectHandler_serves_until_expiry expired_world sample_request expired_link
           (repo expired_world) 100 101).
  - reflexivity.
  - simpl. lia.
Defined.

Lemma sendAll_fills_in_order_witness :
  sendAll [mkClickEvent 1 901 "a" client; mkClickEvent 1 902 "b" client;
           mkClickEvent 1 903 "c" client] roomy_world =
    (replicate (Nat.min (room {| buf := [mkClickEvent 1 900 "curl/8.5.0" client]; cap := 3 |})
                  3) true ++
     replicate (3 - room {| buf := [mkClickEvent 1 900 "curl/8.5.0" client]; cap := 3 |})
       false,
     mkWorld (entropy roomy_world) (drawn roomy_world) (repo roomy_world)
       (Some {| buf := [mkClickEvent 1 900 "curl/8.5.0" client] ++
                  take (room {| buf := [mkClickEvent 1 900 "curl/8.5.0" client];
                                cap := 3 |})
                    [mkClickEvent 1 901 "a" client; mkClickEvent 1 902 "b" client;
                     mkClickEvent 1 903 "c" client];
                cap := 3 |})
       (logs roomy_world)).
Proof.
  apply (sendAll_fills_in_order
           [mkClickEvent 1 901 "a" client; mkClickEvent 1 902 "b" client;
            mkClickEvent 1 903 "c" client] roomy_world
           {| buf := [mkClickEvent 1 900 "curl/8.5.0" client]; cap := 3 |}).
  - reflexivity.
  - simpl. lia.
Defined.

Lemma SetupRoutes_once_witness :
  sendAll [mkClickEvent 1 901 "a" client] (SetupRoutes unset_world).2 =
    (replicate 1 true,
     mkWorld (entropy unset_world) (drawn unset_world) (repo unset_world)
       (Some {| buf := [mkClickEvent 1 901 "a" client]; cap := 1000 |})
       (logs unset_world)).
Proof.
  apply (SetupRoutes_once unset_world [mkClickEvent 1 901 "a" client]).
  simpl. lia.
Defined.

(** X24: a request for a code that no link of the table carries is
    answered 404 "Short code not found"; nothing is sent on the channel
    and nothing is logged: the world stays as it is. *)
Theorem RedirectHandler_unknown_code (w : World DB) (req : Request)
    (now_expiry now_click : Time) :
  fault (repo w) = None ->
  ~ In (param_shortCode req) (short_codes (repo w)) ->
  RedirectHandler req now_expiry now_click w =
    (mkResponse StatusNotFound []
       (JSON [("error"%string, VString "Short code not found")]), w).
Proof.
  intros Hfault Hfree.
  unfold RedirectHandler, Services.GetLinkByShortCode, mbind, State_bind.
  rewrite on_repo_lookup, First_free by done. reflexivity.
Qed.

Lemma RedirectHandler_unknown_code_witness :
  RedirectHandler (mkRequest "zzzzzz" "curl/8.5.0" client) 200 201 expired_world =
    (mkResponse StatusNotFound []
       (JSON [("error"%string, VString "Short code not found")]), expired_world).
Proof.
  apply (RedirectHandler_unknown_code expired_world
           (mkRequest "zzzzzz" "curl/8.5.0" client) 200 201).
  - reflexivity.
  - vm_compute. intros [H|[]]. discriminate H.
Defined.

(** X25: when the database fails during the lookup, the redirect is
    answered 500 with the text "Internal server error" and no more: the
    error of the database goes to the log, not to the client, and nothing
    is sent on the channel. *)
Theorem RedirectHandler_database_error (w : World DB) (req : Request) (msg : string)
    (now_expiry now_click : Time) :
  fault (repo w) = Some msg ->
  RedirectHandler req now_expiry now_click w =
    (mkResponse StatusInternalServerError []
       (JSON [("error"%string, VString "Internal server error")]),
     with_logs [LogRetrieveError (param_shortCode req) (ErrForeign msg)] w).
Proof.
  intros Hfault.
  unfold RedirectHandler, Services.GetLinkByShortCode, mbind, State_bind.
  rewrite on_repo_lookup. unfold First_by_short_code. rewrite Hfault.
  reflexivity.
Qed.

Lemma RedirectHandler_database_error_witness :
  RedirectHandler sample_request 200 201 offline_world =
    (mkResponse StatusInternalServerError []
       (JSON [("error"%string, VString "Internal server error")]),
     with_logs [LogRetrieveError (param_shortCode sample_request)
                  (ErrForeign "database is closed")] offline_world).
Proof.
  apply (RedirectHandler_database_error offline_world sample_request
           "database is closed" 200 201).
  reflexivity.
Defined.

End RedirectPathSamples.
